(** * har_crawl: endpoint extraction and rendering of [crawl.py]

    A shallow embedding of [crawl.py] and the properties of its
    extraction pass ([get_endpoints] and its helpers) and of its driver
    ([main], [write_md]).

    Modelling conventions.
    - A Python [str] is a Rocq [string]; comparison is lexicographic on
      character codes, as in Python.
    - A Python [dict] is an association list in insertion order with
      pairwise distinct keys ([dict_set] keeps the position of a key that
      is already present and replaces its value).
    - An uncaught exception is the [Raise] case of [result].
    - The HAR document is read through the HAR 1.2 schema: the members the
      program subscripts unconditionally are record fields, the members
      whose absence it catches as [KeyError] are [option]s. The
      properties are therefore about documents whose entries have their
      [request] (with [method], [url] and [headers]) and their
      [response] (with [headers]); on any other document the program
      raises [KeyError] at the first subscript that misses.
    - The builtins the program calls but does not define ([hash],
      [json.loads], [json.load], [json.dumps], [str] formatting, the
      iteration order of a [set], [open] and [os.makedirs]) are the
      fields of [Builtins]. *)

From Stdlib Require Import String Ascii List ZArith Lia Bool Sorted Permutation.
From Stdlib Require Import DecimalString.
Import ListNotations.
Open Scope string_scope.
Open Scope Z_scope.

Set Implicit Arguments.

(** ** Exceptions *)

Inductive exn : Type :=
| KeyError
| IndexError
| ValueError
| JSONDecodeError
| AttributeError
| TypeError
| OSError
| FileNotFoundError
| SystemExit (code : Z).

Inductive result (A : Type) : Type :=
| Ok (a : A)
| Raise (e : exn).
Arguments Ok {A} a.
Arguments Raise {A} e.

Definition bind {A B : Type} (m : result A) (k : A -> result B) : result B :=
  match m with
  | Ok a => k a
  | Raise e => Raise e
  end.

Notation "x <- m ;; k" := (bind m (fun x => k))
  (at level 61, m at next level, right associativity).

(** ** Python strings *)

Module Str.

Definition len (s : string) : Z := Z.of_nat (String.length s).

Fixpoint drop (n : nat) (s : string) : string :=
  match n, s with
  | O, _ => s
  | S _, EmptyString => EmptyString
  | S n', String _ r => drop n' r
  end.

Fixpoint take (n : nat) (s : string) : string :=
  match n, s with
  | O, _ => EmptyString
  | S _, EmptyString => EmptyString
  | S n', String c r => String c (take n' r)
  end.

(** The bound of a slice, as Python resolves it: a negative index counts
    from the end, and the outcome is clipped to [0 .. len s]. *)
Definition clip (s : string) (i : Z) : nat :=
  let i' := if i <? 0 then i + len s else i in
  Z.to_nat (Z.min (Z.max i' 0) (len s)).

(** [s[i:]] *)
Definition slice_from (s : string) (i : Z) : string := drop (clip s i) s.

(** [s[:i]] *)
Definition slice_to (s : string) (i : Z) : string := take (clip s i) s.

(** [s.find(c)] for a one-character [c]: the first index, or [-1]. *)
Fixpoint find (c : ascii) (s : string) : Z :=
  match s with
  | EmptyString => -1
  | String a r =>
      if Ascii.eqb a c then 0
      else let i := find c r in if i =? -1 then -1 else i + 1
  end.

(** [s[-1]] *)
Fixpoint last (s : string) : result ascii :=
  match s with
  | EmptyString => Raise IndexError
  | String c EmptyString => Ok c
  | String _ r => last r
  end.

(** [s.split(c)] for a one-character separator [c]. *)
Fixpoint split (c : ascii) (s : string) : list string :=
  match s with
  | EmptyString => [EmptyString]
  | String a r =>
      if Ascii.eqb a c then EmptyString :: split c r
      else match split c r with
           | h :: t => String a h :: t
           | [] => [String a EmptyString]
           end
  end.

(** [s.startswith(p)] *)
Fixpoint startswith (s p : string) : bool :=
  match p, s with
  | EmptyString, _ => true
  | String _ _, EmptyString => false
  | String b p', String a s' => Ascii.eqb a b && startswith s' p'
  end.

(** [s.count(c)] for a one-character [c]. *)
Fixpoint count (c : ascii) (s : string) : Z :=
  match s with
  | EmptyString => 0
  | String a r => (if Ascii.eqb a c then 1 else 0) + count c r
  end.

(** [s * n] *)
Definition repeat (s : string) (n : Z) : string :=
  String.concat EmptyString (List.repeat s (Z.to_nat n)).

(** [s < t] *)
Definition ltb (s t : string) : bool :=
  match String.compare s t with
  | Lt => true
  | _ => false
  end.

(** [str(i)] for an [int]. *)
Definition of_int (i : Z) : string :=
  NilZero.string_of_int (Z.to_int i).

End Str.

(** ** Python dictionaries with [str] keys *)

Definition dict (V : Type) : Type := list (string * V).

Section Dict.
Variable V : Type.

(** [d[k] = v] *)
Fixpoint dict_set (d : dict V) (k : string) (v : V) : dict V :=
  match d with
  | [] => [(k, v)]
  | (k', v') :: r =>
      if String.eqb k' k then (k', v) :: r else (k', v') :: dict_set r k v
  end.

(** [d.get(k)] *)
Fixpoint dict_get (d : dict V) (k : string) : option V :=
  match d with
  | [] => None
  | (k', v') :: r => if String.eqb k' k then Some v' else dict_get r k
  end.

(** [d.keys()], in iteration order. *)
Definition keys (d : dict V) : list string := map fst d.

End Dict.

(** ** Decoded JSON values *)

#[warnings="-register-all"]
Inductive json : Type :=
| JNull
| JBool (b : bool)
| JInt (n : Z)
| JFloat (repr : string)
| JString (s : string)
| JArray (l : list json)
| JObject (d : list (string * json)).

(** ** The HAR document, as far as the program reads it *)

Module Har.

Record header : Type := { name : string; value : string }.

(** [postData]; its [text] member may be missing. *)
Record postData : Type := { pd_text : option string }.

(** [content]; its [text] member may be missing. *)
Record content : Type := { c_text : option string }.

Record request : Type :=
  { req_method : string;
    req_url : string;
    req_headers : list header;
    req_postData : option postData }.

Record response : Type :=
  { res_headers : list header;
    res_content : option content }.

(** An entry. The loop subscripts [entry["request"]] and
    [entry["response"]] before it filters: an entry without one of the
    two stops the program with [KeyError] and is no value of this
    type. *)
Record entry : Type := { e_request : request; e_response : response }.

Record log : Type := { entries : list entry }.

Record t : Type := { har_log : log }.

End Har.

(** ** The program's records *)

Module Request.
Record t : Type :=
  { headers : dict string; params : dict string; body : json }.
End Request.

Module Response.
Record t : Type := { headers : dict string; content : json }.
End Response.

Module Endpoint.
Record t : Type :=
  { method : string; url : string;
    request : Request.t; response : Response.t }.

(** The generated [__eq__] compares the tuples [(method, url)]: the
    other two fields are declared with [compare=False]. *)
Definition eqb (a b : t) : bool :=
  String.eqb (method a) (method b) && String.eqb (url a) (url b).

(** The generated [__lt__] orders the tuples [(method, url)]. *)
Definition ltb (a b : t) : bool :=
  match String.compare (method a) (method b) with
  | Lt => true
  | Eq => Str.ltb (url a) (url b)
  | Gt => false
  end.

(** [b.keys()] on the decoded body: only a [dict] has the method. *)
Definition body_keys (b : json) : result (list string) :=
  match b with
  | JObject d => Ok (keys d)
  | _ => Raise AttributeError
  end.

(** The tuple that [__hash__] hands to [hash]. *)
Definition hash_args (e : t) : result (list string) :=
  bk <- body_keys (Request.body (request e)) ;;
  Ok (method e :: url e :: keys (Request.params (request e)) ++ bk)%list.
End Endpoint.

(** A [set] of endpoints: the entries in insertion order, each stored
    with its hash as in the interpreter's table. *)
Definition pyset : Type := list (Z * Endpoint.t).

Definition elements (s : pyset) : list Endpoint.t := map snd s.

(** ** Builtins *)

Record Builtins : Type :=
  { (** [hash] of a tuple of [str] *)
    hash : list string -> Z;
    (** [json.loads]; [None] stands for [JSONDecodeError] *)
    json_loads : string -> option json;
    (** [json.load] of the HAR file *)
    json_load : string -> result Har.t;
    (** [json.dumps(v, indent=4, sort_keys=True)] *)
    json_dumps : json -> string;
    (** [str(v)] of a decoded value, as an f-string formats it *)
    py_str : json -> string;
    (** the order in which a [set] yields its elements *)
    set_iter : pyset -> list Endpoint.t;
    (** [open(path)] for reading: the text of the file *)
    open_read : string -> result string;
    (** [os.makedirs(name, exist_ok=True)] for a [name] that is not
        empty: whether the file system lets it *)
    os_makedirs : string -> result unit;
    (** [open(name, mode)] for writing or appending: whether the file
        opens *)
    open_write : string -> string -> result unit }.

(** ** Extraction *)

Definition question : ascii := "?"%char.
Definition slash : ascii := "/"%char.
Definition ampersand : ascii := "&"%char.
Definition equals : ascii := "="%char.

Definition get_url (req : Har.request) (start : Z) : result string :=
  let url := Str.slice_from (Har.req_url req) start in
  let idx := Str.find question url in
  let url := if negb (idx =? -1) then Str.slice_to url idx else url in
  c <- Str.last url ;;
  if negb (Ascii.eqb c slash) then Ok (url ++ "/")%string else Ok url.

Definition get_headers (hs : list Har.header) : dict string :=
  fold_left (fun headers header =>
               dict_set headers (Har.name header) (Har.value header))
            hs [].

(** One round of the loop of [get_params]: the pair that the token [pv]
    assigns. Unpacking [pv.split("=")] into two names raises [ValueError]
    unless the list has exactly two elements. *)
Definition param_of (pv : string) : string * string :=
  match Str.split equals pv with
  | [param; value] => (param, value)
  | param :: _ => (param, EmptyString)
  | [] => (EmptyString, EmptyString)
  end.

(** The assignment [params[param] = value] that ends the round. *)
Definition assign (params : dict string) (pv : string) : dict string :=
  let '(param, value) := param_of pv in dict_set params param value.

Definition get_params (req : Har.request) : dict string :=
  let url := Har.req_url req in
  let idx := Str.find question url in
  if idx =? -1 then []
  else
    let param_str := Str.slice_from url (idx + 1) in
    fold_left assign (Str.split ampersand param_str) [].

Section Extraction.
Variable rt : Builtins.

Definition loads (text : string) : result json :=
  match json_loads rt text with
  | Some v => Ok v
  | None => Raise JSONDecodeError
  end.

Definition get_body (req : Har.request) : result json :=
  match Har.req_postData req with
  | None => Ok (JObject [])
  | Some pd =>
      match Har.pd_text pd with
      | None => Ok (JObject [])
      | Some text => loads text
      end
  end.

Definition get_content (res : Har.response) : result json :=
  match Har.res_content res with
  | None => Ok (JObject [])
  | Some c =>
      match Har.c_text c with
      | None => Ok (JObject [])
      | Some text => loads text
      end
  end.

(** [hash(endpoint)] *)
Definition endpoint_hash (e : Endpoint.t) : result Z :=
  args <- Endpoint.hash_args e ;;
  Ok (hash rt args).

(** [s.add(x)]: [x] is hashed, and it is inserted unless an element
    with the same hash compares equal to it. *)
Definition set_add (s : pyset) (x : Endpoint.t) : result pyset :=
  h <- endpoint_hash x ;;
  if existsb (fun p => (fst p =? h) && Endpoint.eqb (snd p) x) s
  then Ok s
  else Ok (s ++ [(h, x)])%list.

(** The filter of the loop: the entry is neither an [OPTIONS] request
    nor outside [base]. *)
Definition accepted (base : string) (entry : Har.entry) : bool :=
  let req := Har.e_request entry in
  negb (String.eqb (Har.req_method req) "OPTIONS")
  && Str.startswith (Har.req_url req) base.

(** The endpoint built from an entry that passed the filter. *)
Definition make_endpoint (start : Z) (entry : Har.entry)
  : result Endpoint.t :=
  let req := Har.e_request entry in
  let res := Har.e_response entry in
  let req_headers := get_headers (Har.req_headers req) in
  let req_params := get_params req in
  req_body <- get_body req ;;
  let req_obj := Request.Build_t req_headers req_params req_body in
  let res_headers := get_headers (Har.res_headers res) in
  res_content <- get_content res ;;
  let res_obj := Response.Build_t res_headers res_content in
  url <- get_url req start ;;
  Ok (Endpoint.Build_t (Har.req_method req) url req_obj res_obj).

Fixpoint extract_loop (base : string) (start : Z)
         (entries : list Har.entry) (endpoints : pyset) : result pyset :=
  match entries with
  | [] => Ok endpoints
  | entry :: rest =>
      let req := Har.e_request entry in
      if String.eqb (Har.req_method req) "OPTIONS"
      then extract_loop base start rest endpoints
      else if Str.startswith (Har.req_url req) base
      then
        e <- make_endpoint start entry ;;
        endpoints' <- set_add endpoints e ;;
        extract_loop base start rest endpoints'
      else extract_loop base start rest endpoints
  end.

Definition get_endpoints (file : string) (base : string) : result pyset :=
  data <- json_load rt file ;;
  let start := Str.len base in
  extract_loop base start (Har.entries (Har.har_log data)) [].

End Extraction.

(** ** Output: the effects of a run, in the order they happen

    A computation of the driver yields the calls it made, in order, and
    either a value or the exception that stopped it; a call that fails
    is the last of its trace. Whether a directory can be made and a file
    opened is for the file system to say ([fs_result]); writing to a
    file that is open is taken to succeed. *)

(** An open file: [f.name] and [f.mode]. *)
Record file : Type := { path : string; mode : string }.

Inductive event : Type :=
| Print (line : string)          (* [print(line)] *)
| Open (name mode : string)      (* [open(name, mode)] *)
| Write (f : file) (text : string)   (* [f.write(text)] *)
| MakeDirs (name : string).      (* [os.makedirs(name, exist_ok=True)] *)

Definition io (A : Type) : Type := (list event * result A)%type.

Definition io_ret {A : Type} (a : A) : io A := ([], Ok a).

Definition io_raise {A : Type} (e : exn) : io A := ([], Raise e).

Definition io_lift {A : Type} (r : result A) : io A := ([], r).

Definition emit (ev : event) : io unit := ([ev], Ok tt).

(** The outcome of a call to the file system. [os.makedirs('')] raises
    [FileNotFoundError]; for any other directory, and for a file to
    write or to append to, the file system decides. *)
Definition fs_result (rt : Builtins) (ev : event) : result unit :=
  match ev with
  | MakeDirs name =>
      if String.eqb name EmptyString then Raise FileNotFoundError
      else os_makedirs rt name
  | Open name mode =>
      if String.eqb mode "r" then Ok tt else open_write rt name mode
  | _ => Ok tt
  end.

(** [os.makedirs(name, exist_ok=True)] *)
Definition makedirs (rt : Builtins) (name : string) : io unit :=
  ([MakeDirs name], fs_result rt (MakeDirs name)).

(** [open(name, mode)] for writing or appending. *)
Definition open_out (rt : Builtins) (name mode : string) : io file :=
  ([Open name mode],
   _ <- fs_result rt (Open name mode) ;;
   Ok {| path := name; mode := mode |}).

Definition io_bind {A B : Type} (m : io A) (k : A -> io B) : io B :=
  match m with
  | (tr, Ok a) => let '(tr', r) := k a in ((tr ++ tr')%list, r)
  | (tr, Raise e) => (tr, Raise e)
  end.

Notation "x <~ m ;; k" := (io_bind m (fun x => k))
  (at level 61, m at next level, right associativity).
Notation "m >> k" := (io_bind m (fun _ => k))
  (at level 61, right associativity).

(** [for x in xs: body(x)] *)
Fixpoint for_each {A : Type} (xs : list A) (body : A -> io unit) : io unit :=
  match xs with
  | [] => io_ret tt
  | x :: rest => body x >> for_each rest body
  end.

Definition nl : string := String "010"%char EmptyString.

(** [sorted(xs)]: the stable sort by [__lt__]. *)
Fixpoint insert (x : Endpoint.t) (l : list Endpoint.t) : list Endpoint.t :=
  match l with
  | [] => [x]
  | y :: r => if Endpoint.ltb y x then y :: insert x r else x :: y :: r
  end.

Definition sorted (l : list Endpoint.t) : list Endpoint.t :=
  fold_right insert [] l.

Section Render.
Variable rt : Builtins.

Definition write_table {V : Type} (fmt : V -> string) (f : file)
           (d : dict V) (key_name value_name : string) : io unit :=
  emit (Write f (key_name ++ " | " ++ value_name ++ nl)) >>
  emit (Write f (":----- | :----" ++ nl)) >>
  for_each d (fun kv =>
    emit (Write f ("`" ++ fst kv ++ "` | <code>" ++ fmt (snd kv)
                   ++ "</code>" ++ nl))) >>
  emit (Write f nl).

Definition write_none (f : file) : io unit :=
  emit (Write f ("| None |" ++ nl)) >>
  emit (Write f ("| :--- |" ++ nl ++ nl)).

(** [len(b)] on the decoded body. *)
Definition body_len (b : json) : result Z :=
  match b with
  | JObject d => Ok (Z.of_nat (List.length d))
  | JArray l => Ok (Z.of_nat (List.length l))
  | JString s => Ok (Str.len s)
  | _ => Raise TypeError
  end.

(** [b.items()] on the decoded body. *)
Definition body_items (b : json) : result (dict json) :=
  match b with
  | JObject d => Ok d
  | _ => Raise AttributeError
  end.

(** [write_table(f, b, "Parameter", "Value")] on the decoded body [b]:
    the two lines of the heading are written before [b.items()] is
    evaluated. *)
Definition write_body_table (f : file) (b : json) : io unit :=
  match body_items b with
  | Ok items => write_table (py_str rt) f items "Parameter" "Value"
  | Raise e =>
      emit (Write f ("Parameter" ++ " | " ++ "Value" ++ nl)) >>
      emit (Write f (":----- | :----" ++ nl)) >>
      io_raise e
  end.

Definition write_request (f : file) (endpoint : Endpoint.t) : io unit :=
  let request := Endpoint.request endpoint in
  emit (Write f ("## Request" ++ nl ++ nl)) >>
  emit (Write f ("<details>" ++ nl)) >>
  emit (Write f ("<summary>Headers</summary>" ++ nl ++ nl)) >>
  write_table id f (Request.headers request) "Header" "Value" >>
  emit (Write f ("</details>" ++ nl)) >>
  emit (Write f ("### Parameters" ++ nl ++ nl)) >>
  (if 0 <? Z.of_nat (List.length (Request.params request))
   then write_table id f (Request.params request) "Parameter" "Value"
   else write_none f) >>
  if String.eqb (Endpoint.method endpoint) "POST"
  then
    emit (Write f ("### Body" ++ nl ++ nl)) >>
    n <~ io_lift (body_len (Request.body request)) ;;
    if 0 <? n
    then write_body_table f (Request.body request)
    else write_none f
  else io_ret tt.

Definition write_response (f : file) (endpoint : Endpoint.t) : io unit :=
  let response := Endpoint.response endpoint in
  emit (Write f ("## Response" ++ nl ++ nl)) >>
  emit (Write f ("<details>" ++ nl)) >>
  emit (Write f ("<summary>Headers</summary>" ++ nl ++ nl)) >>
  write_table id f (Response.headers response) "Header" "Value" >>
  emit (Write f ("</details>" ++ nl)) >>
  emit (Write f ("### Content" ++ nl ++ nl)) >>
  emit (Write f ("```" ++ nl)) >>
  emit (Write f (json_dumps rt (Response.content response))) >>
  emit (Write f (nl ++ "```" ++ nl)).

(** The line that [write_md] appends to the index for the endpoint at
    position [i] of the sorted sequence. *)
Definition index_link (endpoint : Endpoint.t) (i : Z) : string :=
  "- [`" ++ Endpoint.method endpoint ++ " " ++ Endpoint.url endpoint
  ++ "`]" ++ "(" ++ Str.slice_from (Endpoint.url endpoint) 1
  ++ Endpoint.method endpoint ++ "_" ++ Str.of_int i ++ ".html)" ++ nl.

(** The body of the loop of [write_md], for the endpoints that remain;
    [i] is the counter as the round finds it. *)
Fixpoint write_pages (out_dir : string) (i : Z)
         (endpoints : list Endpoint.t) : io unit :=
  match endpoints with
  | [] => io_ret tt
  | endpoint :: rest =>
      let i := i + 1 in
      let dir := out_dir ++ Endpoint.url endpoint in
      makedirs rt dir >>
      f <~ open_out rt (out_dir ++ "/index.md") "a" ;;
      emit (Write f (index_link endpoint i)) >>
      f <~ open_out rt (dir ++ Endpoint.method endpoint ++ "_" ++ Str.of_int i
                     ++ ".md") "w" ;;
      let depth := Str.count slash (Endpoint.url endpoint) - 1 in
      emit (Write f ("[Back to index](" ++ Str.repeat "../" depth
                     ++ "index.html" ++ ")" ++ nl ++ nl)) >>
      emit (Write f ("## `" ++ Endpoint.method endpoint ++ " "
                     ++ Endpoint.url endpoint ++ "`" ++ nl ++ nl)) >>
      write_request f endpoint >>
      write_response f endpoint >>
      write_pages out_dir i rest
  end.

Definition write_md (base : string) (endpoints : pyset) (out_dir : string)
  : io unit :=
  c <~ io_lift (Str.last out_dir) ;;
  let out_dir := if Ascii.eqb c slash then Str.slice_to out_dir (-1)
                 else out_dir in
  makedirs rt out_dir >>
  f <~ open_out rt (out_dir ++ "/index.md") "w" ;;
  emit (Write f ("## `" ++ base ++ "`" ++ nl ++ nl)) >>
  write_pages out_dir (-1) (sorted (set_iter rt endpoints)).

Definition usage : string :=
  "Usage: ./crawl.py <HAR file> <API base URL> <output dir>".

Definition main (argv : list string) : io unit :=
  if negb (Z.of_nat (List.length argv) =? 4)
  then emit (Print usage) >> io_raise (SystemExit 1)
  else
    let har := nth 1 argv EmptyString in
    let base := nth 2 argv EmptyString in
    let out_dir := nth 3 argv EmptyString in
    emit (Open har "r") >>
    f <~ io_lift (open_read rt har) ;;
    endpoints <~ io_lift (get_endpoints rt f base) ;;
    for_each (sorted (set_iter rt endpoints)) (fun endpoint =>
      emit (Print (Endpoint.method endpoint ++ " "
                   ++ Endpoint.url endpoint))) >>
    write_md base endpoints out_dir.

End Render.

(** ** Vocabulary of the properties *)

(** The field names of a decoded body: those of an object, none
    otherwise. *)
Definition body_names (b : json) : list string :=
  match b with
  | JObject d => keys d
  | _ => []
  end.

(** The structural key of an endpoint: method, url, the parameter names
    and the body field names, each sequence in the order of its
    mapping. *)
Definition structural_key (e : Endpoint.t)
  : string * string * list string * list string :=
  (Endpoint.method e, Endpoint.url e,
   keys (Request.params (Endpoint.request e)),
   body_names (Request.body (Endpoint.request e))).


(** The text that [get_body] decodes: [req["postData"]["text"]], when
    both members are there. *)
Definition body_text (req : Har.request) : option string :=
  match Har.req_postData req with
  | None => None
  | Some pd => Har.pd_text pd
  end.

(** The text that [get_content] decodes: [res["content"]["text"]], when
    both members are there. *)
Definition content_text (res : Har.response) : option string :=
  match Har.res_content res with
  | None => None
  | Some c => Har.c_text c
  end.


(** The element [z] of a set stands for the candidate [e]: they hash
    alike and compare equal, so that adding [e] to a set that holds [z]
    leaves the set as it is. *)
Definition stands_for (rt : Builtins) (z e : Endpoint.t) : Prop :=
  exists h, endpoint_hash rt z = Ok h /\ endpoint_hash rt e = Ok h
            /\ Endpoint.eqb z e = true.

(** The set keeps the structural keys of a log apart: it identifies no
    two accepted entries whose structural keys differ. *)
Definition keys_kept_apart (rt : Builtins) (base : string)
           (entries : list Har.entry) : Prop :=
  forall x y ex ey,
    In x entries -> In y entries ->
    accepted base x = true -> accepted base y = true ->
    make_endpoint rt (Str.len base) x = Ok ex ->
    make_endpoint rt (Str.len base) y = Ok ey ->
    stands_for rt ex ey ->
    structural_key ex = structural_key ey.

(** How a [set] identifies a stored entry with a hashed candidate. *)
Definition same_entry (p q : Z * Endpoint.t) : bool :=
  (fst p =? fst q) && Endpoint.eqb (snd p) (snd q).

(** The invariant of the set: each entry is stored with its hash, and
    no two entries are one element. *)
Definition set_inv (rt : Builtins) (s : pyset) : Prop :=
  Forall (fun p => endpoint_hash rt (snd p) = Ok (fst p)) s
  /\ ForallOrdPairs (fun p q => same_entry p q = false) s.

(** [(method a, url a) <= (method b, url b)], lexicographically. *)
Definition key_le (a b : Endpoint.t) : Prop :=
  String.compare (Endpoint.method a) (Endpoint.method b) = Lt
  \/ (Endpoint.method a = Endpoint.method b
      /\ String.compare (Endpoint.url a) (Endpoint.url b) <> Gt).

(** The name that the token [pv] of a query string assigns:
    [pv.split("=")[0]]. *)
Definition param_name (pv : string) : string :=
  hd EmptyString (Str.split equals pv).

(** The lines of a trace that went to standard output. *)
Definition stdout (tr : list event) : list string :=
  flat_map (fun ev => match ev with Print l => [l] | _ => [] end) tr.

(** The texts that a trace appended to the file [name]. *)
Definition appended (name : string) (tr : list event) : list string :=
  flat_map (fun ev =>
              match ev with
              | Write f text =>
                  if String.eqb (mode f) "a" && String.eqb (path f) name
                  then [text] else []
              | _ => []
              end) tr.

(** Events that touch the output tree. *)
Definition is_output (ev : event) : bool :=
  match ev with
  | Print _ => false
  | Open _ m => negb (String.eqb m "r")
  | Write _ _ => true
  | MakeDirs _ => true
  end.

Definition is_print (ev : event) : bool :=
  match ev with
  | Print _ => true
  | _ => false
  end.

(** The names of a sequence in the order in which each is seen first. *)
Definition first_seen (names : list string) : list string :=
  fold_left (fun seen k =>
               if existsb (String.eqb k) seen then seen
               else (seen ++ [k])%list)
            names [].

(** The tokens of the query string of a URL: what follows the first [?],
    split on [&]. *)
Definition query_tokens (url : string) : list string :=
  Str.split ampersand (Str.slice_from url (Str.find question url + 1)).

(** The endpoint [e] with [b] for the body of its request. *)
Definition with_body (e : Endpoint.t) (b : json) : Endpoint.t :=
  {| Endpoint.method := Endpoint.method e;
     Endpoint.url := Endpoint.url e;
     Endpoint.request :=
       {| Request.headers := Request.headers (Endpoint.request e);
          Request.params := Request.params (Endpoint.request e);
          Request.body := b |};
     Endpoint.response := Endpoint.response e |}.

(** The row of a table for one item of a mapping. *)
Definition table_row {V : Type} (fmt : V -> string) (f : file)
           (kv : string * V) : event :=
  Write f ("`" ++ fst kv ++ "` | <code>" ++ fmt (snd kv) ++ "</code>" ++ nl).

(** The name of the page of the endpoint [e] with ordinal [i], without
    its extension, relative to the output directory. *)
Definition page_stem (e : Endpoint.t) (i : Z) : string :=
  Str.slice_from (Endpoint.url e) 1 ++ Endpoint.method e ++ "_"
  ++ Str.of_int i.

(** The exit status of a run: [0] when [main] returns, the code of
    [sys.exit], and [1] for any other uncaught exception. *)
Definition exit_status (r : result unit) : Z :=
  match r with
  | Ok _ => 0
  | Raise (SystemExit code) => code
  | Raise _ => 1
  end.

(** The index file of the output directory [out_dir], which [write_md]
    relieves of one trailing [/]. *)
Definition index_md (out_dir : string) : string :=
  match Str.last out_dir with
  | Ok c => (if Ascii.eqb c slash then Str.slice_to out_dir (-1)
             else out_dir) ++ "/index.md"
  | Raise _ => out_dir ++ "/index.md"
  end.

(** The line of the listing on standard output. *)
Definition listing (e : Endpoint.t) : string :=
  Endpoint.method e ++ " " ++ Endpoint.url e.

(** Writes to a file that was opened with mode [w]. *)
Definition is_page_write (ev : event) : bool :=
  match ev with
  | Write f _ => String.eqb (mode f) "w"
  | _ => false
  end.

Definition no_print (ev : event) : bool := negb (is_print ev).

Definition no_output (ev : event) : bool := negb (is_output ev).

(** The endpoints of a sorted sequence with their ordinals, from [i]. *)
Fixpoint enumerate (i : Z) (l : list Endpoint.t) : list (Endpoint.t * Z) :=
  match l with
  | [] => []
  | e :: r => (e, i) :: enumerate (i + 1) r
  end.

(** The links of the index for a sequence of endpoints, numbered from
    [i]. *)
Definition index_links (i : Z) (l : list Endpoint.t) : list string :=
  map (fun p => index_link (fst p) (snd p)) (enumerate i l).

(** The page of the endpoint [e] with ordinal [i]. *)
Definition page_path (out_dir : string) (e : Endpoint.t) (i : Z) : string :=
  (out_dir ++ Endpoint.url e) ++ Endpoint.method e ++ "_" ++ Str.of_int i
  ++ ".md".

(** ** A concrete run, for the examples *)

Module Demo.

(** A polynomial hash of a tuple of strings, reduced modulo [2^64]. *)
Definition str_code (s : string) : Z :=
  fold_left (fun h c => (h * 131 + Z.of_nat (nat_of_ascii c)) mod 2 ^ 64)
            (list_ascii_of_string s) 7.

Definition poly_hash (t : list string) : Z :=
  fold_left (fun h s => (h * 1000003 + str_code s) mod 2 ^ 64) t 3430008.

Definition dquote : string := String "034"%char EmptyString.

(** The text of the object with the one field [name], holding [1]. *)
Definition one_field (name : string) : string :=
  "{" ++ dquote ++ name ++ dquote ++ ": 1}".

(** A decoder that knows a handful of texts. *)
Definition loads_table : dict json :=
  [ ("{}", JObject []);
    ("[]", JArray []);
    ("1", JInt 1);
    (one_field "name", JObject [("name", JInt 1)]);
    (one_field "a", JObject [("a", JInt 1)]) ].

Definition builtins (har : Har.t) : Builtins :=
  {| hash := poly_hash;
     json_loads := dict_get loads_table;
     json_load := fun _ => Ok har;
     json_dumps := fun _ => "{}";
     py_str := fun _ => "1";
     set_iter := elements;
     open_read := fun name => Ok name;
     os_makedirs := fun _ => Ok tt;
     open_write := fun _ _ => Ok tt |}.

Definition base : string := "https://api.example.com/v1".

Definition response : Har.response :=
  {| Har.res_headers := []; Har.res_content := None |}.

Definition entry (method url : string) (hs : list Har.header)
           (pd : option Har.postData) : Har.entry :=
  {| Har.e_request :=
       {| Har.req_method := method; Har.req_url := url;
          Har.req_headers := hs; Har.req_postData := pd |};
     Har.e_response := response |}.

Definition har (es : list Har.entry) : Har.t :=
  {| Har.har_log := {| Har.entries := es |} |}.

Definition agent (v : string) : Har.header :=
  {| Har.name := "User-Agent"; Har.value := v |}.

Definition users_ab : Har.entry :=
  entry "GET" (base ++ "/users?a=1&b=2") [agent "one"] None.

Definition users_ba : Har.entry :=
  entry "GET" (base ++ "/users?b=2&a=1") [agent "two"] None.

Definition users_ab' : Har.entry :=
  entry "GET" (base ++ "/users?a=3&b=4") [agent "three"] None.

Definition preflight : Har.entry :=
  entry "OPTIONS" (base ++ "/users?a=1&b=2") [] None.

Definition elsewhere : Har.entry :=
  entry "GET" "https://cdn.example.com/app.js" [] None.

Definition bare_base : Har.entry :=
  entry "GET" (base ++ "?page=2") [] None.

Definition broken_body : Har.entry :=
  entry "POST" (base ++ "/users") []
        (Some {| Har.pd_text := Some "{name:" |}).

Definition items : Har.entry :=
  entry "GET" (base ++ "/items/") [] None.

(** What [make_endpoint] builds from [users_ab] and from [users_ba]. *)
Definition endpoint_of_query (agent_value : string) (ps : dict string)
  : Endpoint.t :=
  {| Endpoint.method := "GET";
     Endpoint.url := "/users/";
     Endpoint.request :=
       {| Request.headers := [("User-Agent", agent_value)];
          Request.params := ps;
          Request.body := JObject [] |};
     Endpoint.response :=
       {| Response.headers := []; Response.content := JObject [] |} |}.

Definition endpoint_ab : Endpoint.t :=
  endpoint_of_query "one" [("a", "1"); ("b", "2")].

Definition endpoint_ba : Endpoint.t :=
  endpoint_of_query "two" [("b", "2"); ("a", "1")].

Definition capture : Har.t :=
  har [preflight; users_ab; elsewhere; users_ba; users_ab'; items].

(** The collection that [get_endpoints] returns on [capture]. *)
Definition capture_endpoints : pyset :=
  match get_endpoints (builtins capture) "capture.har" base with
  | Ok s => s
  | Raise _ => []
  end.

Definition endpoint_ab' : Endpoint.t :=
  endpoint_of_query "three" [("a", "3"); ("b", "4")].

(** A log with a body that is present and is not JSON. *)
Definition broken_capture : Har.t := har [users_ab; broken_body].

(** A log with a request to the base URL itself. *)
Definition bare_capture : Har.t := har [users_ab; bare_base].

(** A request with a bare flag and a name that occurs twice. *)
Definition flagged : Har.request :=
  Har.e_request (entry "GET" (base ++ "/search?q=1&flag&q=2") [] None).

(** A request with a token that holds two [=]. *)
Definition doubled : Har.request :=
  Har.e_request (entry "GET" (base ++ "/search?k=v1=v2&z=1") [] None).

(** A request whose URL is normalised already. *)
Definition normalised : Har.request :=
  Har.e_request (entry "GET" "/users/" [] None).

(** Headers with a name that occurs twice. *)
Definition repeated_headers : list Har.header :=
  [ {| Har.name := "Accept"; Har.value := "text/html" |};
    agent "one";
    {| Har.name := "Accept"; Har.value := "application/json" |} ].

(** A request whose body is JSON, and is not an object. *)
Definition array_body : Har.entry :=
  entry "POST" (base ++ "/users") [] (Some {| Har.pd_text := Some "[]" |}).

Definition array_capture : Har.t := har [users_ab; array_body].

(** The request of [users_ab] without its query string. *)
Definition users_plain : Har.request :=
  Har.e_request (entry "GET" (base ++ "/users") [] None).

(** Builtins for which no file opens. *)
Definition no_file : Builtins :=
  {| hash := poly_hash;
     json_loads := dict_get loads_table;
     json_load := fun _ => Ok capture;
     json_dumps := fun _ => "{}";
     py_str := fun _ => "1";
     set_iter := elements;
     open_read := fun _ => Raise OSError;
     os_makedirs := fun _ => Ok tt;
     open_write := fun _ _ => Ok tt |}.

(** The log [capture], followed by two of its entries. *)
Definition capture_again : Har.t :=
  har [preflight; users_ab; elsewhere; users_ba; users_ab'; items;
       users_ba; users_ab].

(** Builtins with two HAR files. *)
Definition two_files : Builtins :=
  {| hash := poly_hash;
     json_loads := dict_get loads_table;
     json_load := fun text =>
                    if String.eqb text "again.har" then Ok capture_again
                    else Ok capture;
     json_dumps := fun _ => "{}";
     py_str := fun _ => "1";
     set_iter := elements;
     open_read := fun name => Ok name;
     os_makedirs := fun _ => Ok tt;
     open_write := fun _ _ => Ok tt |}.

(** A log of which the filter lets nothing pass. *)
Definition noise : Har.t := har [preflight; elsewhere].

Definition argv_unnamed : list string :=
  ["crawl.py"; "capture.har"; base; ""].

(** A request with the parameter [a] and no body, and requests with no
    parameter and the one body field [a]. *)
Definition post_query : Har.entry :=
  entry "POST" (base ++ "/users?a=1") [] None.

Definition post_body (agent_value : string) : Har.entry :=
  entry "POST" (base ++ "/users") [agent agent_value]
        (Some {| Har.pd_text := Some (one_field "a") |}).

Definition endpoint_post_query : Endpoint.t :=
  {| Endpoint.method := "POST";
     Endpoint.url := "/users/";
     Endpoint.request :=
       {| Request.headers := [];
          Request.params := [("a", "1")];
          Request.body := JObject [] |};
     Endpoint.response :=
       {| Response.headers := []; Response.content := JObject [] |} |}.

Definition endpoint_post_body (agent_value : string) : Endpoint.t :=
  {| Endpoint.method := "POST";
     Endpoint.url := "/users/";
     Endpoint.request :=
       {| Request.headers := [("User-Agent", agent_value)];
          Request.params := [];
          Request.body := JObject [("a", JInt 1)] |};
     Endpoint.response :=
       {| Response.headers := []; Response.content := JObject [] |} |}.

Definition flat_capture : Har.t :=
  har [post_query; post_body "one"; post_body "two"].

Definition argv : list string := ["crawl.py"; "capture.har"; base; "out"].

End Demo.

(** * Properties *)

Unset Implicit Arguments.

(** ** Strings *)

Module StrFacts.
Import Str.

Lemma len_nonneg (s : string) : 0 <= len s.
Proof. unfold len. lia. Qed.

Lemma clip_inside (s : string) (i : Z) :
  0 <= i <= len s -> clip s i = Z.to_nat i.
Proof.
  intros Hi. unfold clip.
  destruct (Z.ltb_spec i 0) as [Hneg | _]; [lia |].
  f_equal. lia.
Qed.

Lemma slice_from_0 (s : string) : slice_from s 0 = s.
Proof.
  unfold slice_from. rewrite clip_inside.
  - reflexivity.
  - pose proof (len_nonneg s). lia.
Qed.

Lemma drop_append (p q : string) :
  drop (String.length p) (p ++ q) = q.
Proof. induction p as [| a p IH]; simpl; auto. Qed.

Lemma length_append (p q : string) :
  String.length (p ++ q) = (String.length p + String.length q)%nat.
Proof. induction p as [| a p IH]; simpl; auto. Qed.

Lemma slice_from_append (p q : string) :
  slice_from (p ++ q) (len p) = q.
Proof.
  unfold slice_from. rewrite clip_inside.
  - unfold len. rewrite Nat2Z.id. apply drop_append.
  - unfold len. rewrite length_append. lia.
Qed.

Lemma find_bounds (c : ascii) (s : string) :
  find c s <> -1 -> 0 <= find c s < len s.
Proof.
  induction s as [| a r IH]; simpl; intros H.
  - contradiction.
  - unfold len in *. simpl String.length.
    destruct (Ascii.eqb a c).
    + lia.
    + destruct (Z.eqb_spec (find c r) (-1)) as [E | NE].
      * contradiction.
      * specialize (IH NE). lia.
Qed.

Lemma find_take (c : ascii) (s : string) :
  find c s <> -1 -> find c (take (Z.to_nat (find c s)) s) = -1.
Proof.
  induction s as [| a r IH]; simpl; intros H.
  - contradiction.
  - destruct (Ascii.eqb a c) eqn:Eac.
    + reflexivity.
    + destruct (Z.eqb_spec (find c r) (-1)) as [E | NE].
      * contradiction.
      * pose proof (find_bounds c r NE) as Hb.
        replace (Z.to_nat (find c r + 1)) with (S (Z.to_nat (find c r)))
          by lia.
        simpl. rewrite Eac, (IH NE). reflexivity.
Qed.

Lemma find_slice_to (c : ascii) (s : string) :
  find c s <> -1 -> find c (slice_to s (find c s)) = -1.
Proof.
  intros H. unfold slice_to.
  rewrite clip_inside by (pose proof (find_bounds c s H); lia).
  now apply find_take.
Qed.

Lemma find_append_char (c d : ascii) (s : string) :
  find c s = -1 -> Ascii.eqb d c = false ->
  find c (s ++ String d EmptyString) = -1.
Proof.
  intros Hs Hd. induction s as [| a r IH]; simpl in *.
  - now rewrite Hd.
  - destruct (Ascii.eqb a c); [discriminate |].
    destruct (Z.eqb_spec (find c r) (-1)) as [E | NE].
    + rewrite (IH E). reflexivity.
    + pose proof (find_bounds c r NE). lia.
Qed.

Lemma last_append_char (d : ascii) (s : string) :
  last (s ++ String d EmptyString) = Ok d.
Proof.
  induction s as [| a r IH]; simpl; auto.
  destruct (r ++ String d EmptyString) eqn:E.
  - destruct r; discriminate.
  - exact IH.
Qed.

Lemma startswith_append (p q : string) : startswith (p ++ q) p = true.
Proof.
  induction p as [| a p IH]; simpl.
  - destruct q; reflexivity.
  - now rewrite Ascii.eqb_refl.
Qed.

Lemma startswith_inv (s p : string) :
  startswith s p = true -> exists q, s = p ++ q.
Proof.
  revert s. induction p as [| b p IH]; intros s H.
  - exists s. reflexivity.
  - destruct s as [| a s]; simpl in H; [discriminate |].
    apply andb_true_iff in H as [Hab Hs].
    apply Ascii.eqb_eq in Hab. subst b.
    destruct (IH s Hs) as [q ->]. exists q. reflexivity.
Qed.

End StrFacts.

(** ** URL normalisation *)

Section GetUrl.
Import StrFacts.

(** What [get_url] returns holds no [?] and ends in [/]. *)
Lemma get_url_normal (req : Har.request) (start : Z) (u : string) :
  get_url req start = Ok u ->
  Str.find question u = -1 /\ Str.last u = Ok slash.
Proof.
  unfold get_url.
  set (u0 := Str.slice_from (Har.req_url req) start).
  set (u1 := if negb (Str.find question u0 =? -1)
             then Str.slice_to u0 (Str.find question u0) else u0).
  assert (Hq : Str.find question u1 = -1).
  { unfold u1. destruct (Z.eqb_spec (Str.find question u0) (-1)) as [E | NE].
    - exact E.
    - simpl. now apply find_slice_to. }
  destruct (Str.last u1) as [c |] eqn:Hl; simpl; [| discriminate].
  destruct (Ascii.eqb c slash) eqn:Ec; simpl; intros [= <-].
  - apply Ascii.eqb_eq in Ec. subst c. auto.
  - split.
    + now apply find_append_char.
    + apply last_append_char.
Qed.

(** A string with no [?] that ends in [/] is returned as it is when
    nothing is stripped. *)
Lemma get_url_fixed (req : Har.request) :
  Str.find question (Har.req_url req) = -1 ->
  Str.last (Har.req_url req) = Ok slash ->
  get_url req 0 = Ok (Har.req_url req).
Proof.
  intros Hq Hl. unfold get_url.
  rewrite slice_from_0, Hq. simpl. rewrite Hl. simpl.
  reflexivity.
Qed.

End GetUrl.

(** C4. URL normalisation is idempotent. A URL that holds no query string
    and ends in [/] is returned unchanged by [get_url] with nothing to
    strip ([start = 0]); and whatever [get_url] returns for a request is
    such a URL, so that normalising it again returns it unchanged. *)
Theorem get_url_idempotent (req : Har.request) :
  (Str.find question (Har.req_url req) = -1 ->
   Str.last (Har.req_url req) = Ok slash ->
   get_url req 0 = Ok (Har.req_url req))
  /\
  (forall (start : Z) (u : string) (req' : Har.request),
      get_url req start = Ok u ->
      Har.req_url req' = u ->
      get_url req' 0 = Ok u).
Proof.
  split.
  - apply get_url_fixed.
  - intros start u req' Hu Hreq'.
    destruct (get_url_normal req start u Hu) as [Hq Hl].
    rewrite <- Hreq' in *. now apply get_url_fixed.
Qed.

(** ** Query strings *)

Module SplitFacts.
Import Str StrFacts.

Lemma split_nonempty (c : ascii) (s : string) : split c s <> [].
Proof.
  destruct s as [| a r]; simpl; [discriminate |].
  destruct (Ascii.eqb a c); [discriminate |].
  destruct (split c r); discriminate.
Qed.

Lemma split_no_sep (c : ascii) (s : string) :
  find c s = -1 -> split c s = [s].
Proof.
  induction s as [| a r IH]; simpl; intros H; [reflexivity |].
  destruct (Ascii.eqb a c); [discriminate |].
  destruct (Z.eqb_spec (find c r) (-1)) as [E | NE].
  - now rewrite (IH E).
  - pose proof (find_bounds c r NE). lia.
Qed.

(** The first piece is what precedes the first separator. *)
Lemma split_hd (c : ascii) (s : string) :
  find c s <> -1 ->
  hd EmptyString (split c s) = take (Z.to_nat (find c s)) s.
Proof.
  induction s as [| a r IH]; simpl; intros H; [contradiction |].
  destruct (Ascii.eqb a c) eqn:Eac; [reflexivity |].
  destruct (Z.eqb_spec (find c r) (-1)) as [E | NE]; [contradiction |].
  pose proof (find_bounds c r NE) as Hb.
  replace (Z.to_nat (find c r + 1)) with (S (Z.to_nat (find c r))) by lia.
  simpl. rewrite <- (IH NE).
  pose proof (split_nonempty c r) as Hne.
  destruct (split c r); [contradiction | reflexivity].
Qed.

Lemma split_length (c : ascii) (s : string) :
  Z.of_nat (List.length (split c s)) = count c s + 1.
Proof.
  induction s as [| a r IH]; simpl; [reflexivity |].
  destruct (Ascii.eqb a c).
  - simpl List.length. lia.
  - pose proof (split_nonempty c r) as Hne.
    destruct (split c r) as [| h t]; [contradiction |].
    simpl List.length in *. lia.
Qed.

Lemma param_of_name (pv : string) : fst (param_of pv) = param_name pv.
Proof.
  unfold param_of, param_name.
  destruct (split equals pv) as [| p [| v [| w t]]]; reflexivity.
Qed.

(** A token without [=] assigns the empty string to itself. *)
Lemma param_of_bare (pv : string) :
  find equals pv = -1 -> param_of pv = (pv, EmptyString).
Proof.
  intros H. unfold param_of. now rewrite (split_no_sep _ _ H).
Qed.

(** A token with two [=] or more assigns the empty string to what
    precedes the first. *)
Lemma param_of_many (pv : string) :
  2 <= count equals pv ->
  param_of pv = (slice_to pv (find equals pv), EmptyString).
Proof.
  intros H.
  assert (Hf : find equals pv <> -1).
  { intros E. pose proof (split_length equals pv) as Hl.
    rewrite (split_no_sep _ _ E) in Hl. simpl in Hl. lia. }
  pose proof (split_hd equals pv Hf) as Hhd.
  pose proof (split_length equals pv) as Hl.
  unfold slice_to.
  rewrite clip_inside by (pose proof (find_bounds equals pv Hf); lia).
  unfold param_of.
  destruct (split equals pv) as [| p [| v [| w t]]];
    simpl in Hhd, Hl; try lia.
  now rewrite Hhd.
Qed.

End SplitFacts.

Section DictFacts.
Variable V : Type.

Lemma dict_get_set_same (d : dict V) (k : string) (v : V) :
  dict_get (dict_set d k v) k = Some v.
Proof.
  induction d as [| [k' v'] r IH]; simpl.
  - now rewrite String.eqb_refl.
  - destruct (String.eqb k' k) eqn:E; simpl; rewrite E; auto.
Qed.

Lemma dict_get_set_other (d : dict V) (k k' : string) (v : V) :
  k' <> k -> dict_get (dict_set d k v) k' = dict_get d k'.
Proof.
  intros Hne. induction d as [| [k0 v0] r IH]; simpl.
  - apply String.eqb_neq in Hne. rewrite String.eqb_sym in Hne.
    now rewrite Hne.
  - destruct (String.eqb k0 k) eqn:E; simpl.
    + apply String.eqb_eq in E. subst k0.
      apply String.eqb_neq in Hne. rewrite String.eqb_sym in Hne.
      now rewrite Hne.
    + now rewrite IH.
Qed.

End DictFacts.

Section GetParams.
Import SplitFacts.

Lemma assign_get_same (d : dict string) (pv : string) :
  dict_get (assign d pv) (param_name pv) = Some (snd (param_of pv)).
Proof.
  unfold assign. rewrite <- param_of_name.
  destruct (param_of pv) as [k v]. simpl. apply dict_get_set_same.
Qed.

Lemma assign_get_other (d : dict string) (pv k : string) :
  param_name pv <> k -> dict_get (assign d pv) k = dict_get d k.
Proof.
  unfold assign. rewrite <- param_of_name.
  destruct (param_of pv) as [k' v]. simpl. intros Hne.
  apply dict_get_set_other. congruence.
Qed.

Lemma fold_assign_other (toks : list string) (d : dict string) (k : string) :
  (forall pv, In pv toks -> param_name pv <> k) ->
  dict_get (fold_left assign toks d) k = dict_get d k.
Proof.
  revert d. induction toks as [| pv toks IH]; intros d H; simpl.
  - reflexivity.
  - rewrite IH by (intros; apply H; now right).
    apply assign_get_other. apply H. now left.
Qed.

(** The value of a name is the one assigned by the last token that
    yields the name. *)
Lemma get_params_last (req : Har.request) (t1 t2 : list string)
      (pv : string) :
  Str.find question (Har.req_url req) <> -1 ->
  Str.split ampersand
    (Str.slice_from (Har.req_url req)
                    (Str.find question (Har.req_url req) + 1))
  = (t1 ++ pv :: t2)%list ->
  (forall pv', In pv' t2 -> param_name pv' <> param_name pv) ->
  dict_get (get_params req) (param_name pv) = Some (snd (param_of pv)).
Proof.
  intros Hq Htok Hlast. unfold get_params.
  destruct (Z.eqb_spec (Str.find question (Har.req_url req)) (-1))
    as [E | _]; [contradiction |].
  rewrite Htok.
  rewrite fold_left_app. simpl.
  rewrite fold_assign_other by exact Hlast.
  apply assign_get_same.
Qed.

End GetParams.

(** C6. [get_params] splits what follows the first [?] of the entry's URL
    on [&], and each token on [=]. Let [pv] be a token after which no
    token yields the same name. If [pv] holds no [=], the mapping sends
    the whole of [pv] to the empty string; if [pv] is [k=v], the mapping
    sends [k] to [v], whatever earlier tokens assigned to [k]. *)
Theorem get_params_tokens (req : Har.request) (t1 t2 : list string)
        (pv : string) :
  Str.find question (Har.req_url req) <> -1 ->
  Str.split ampersand
    (Str.slice_from (Har.req_url req)
                    (Str.find question (Har.req_url req) + 1))
  = (t1 ++ pv :: t2)%list ->
  (forall pv', In pv' t2 -> param_name pv' <> param_name pv) ->
  (Str.find equals pv = -1 ->
   dict_get (get_params req) pv = Some EmptyString)
  /\
  (forall k v, Str.split equals pv = [k; v] ->
               dict_get (get_params req) k = Some v).
Proof.
  intros Hq Htok Hlast.
  pose proof (get_params_last req t1 t2 pv Hq Htok Hlast) as H.
  split.
  - intros Hbare.
    rewrite <- SplitFacts.param_of_name in H.
    now rewrite (SplitFacts.param_of_bare pv Hbare) in H.
  - intros k v Hkv.
    unfold param_name, param_of in H. now rewrite Hkv in H.
Qed.

(** C10. A token with two [=] or more, after which no token yields the
    same name, makes [get_params] send what precedes its first [=] to the
    empty string: the rest of the token is dropped. *)
Theorem get_params_many_equals (req : Har.request) (t1 t2 : list string)
        (pv : string) :
  Str.find question (Har.req_url req) <> -1 ->
  Str.split ampersand
    (Str.slice_from (Har.req_url req)
                    (Str.find question (Har.req_url req) + 1))
  = (t1 ++ pv :: t2)%list ->
  (forall pv', In pv' t2 -> param_name pv' <> param_name pv) ->
  2 <= Str.count equals pv ->
  param_of pv = (Str.slice_to pv (Str.find equals pv), EmptyString)
  /\ dict_get (get_params req) (Str.slice_to pv (Str.find equals pv))
     = Some EmptyString.
Proof.
  intros Hq Htok Hlast Hmany.
  pose proof (get_params_last req t1 t2 pv Hq Htok Hlast) as H.
  pose proof (SplitFacts.param_of_many pv Hmany) as Hpv.
  split; [exact Hpv |].
  rewrite <- SplitFacts.param_of_name in H.
  now rewrite Hpv in H.
Qed.

(** ** The extraction loop *)

Section Loop.
Variable rt : Builtins.
Variables (base : string) (start : Z).

Lemma accepted_iff (entry : Har.entry) :
  accepted base entry = true <->
  Har.req_method (Har.e_request entry) <> "OPTIONS"
  /\ Str.startswith (Har.req_url (Har.e_request entry)) base = true.
Proof.
  unfold accepted. rewrite andb_true_iff, negb_true_iff, String.eqb_neq.
  reflexivity.
Qed.

(** One round of the loop on an entry that the filter lets pass, and on
    one that it does not. *)
Lemma extract_loop_accepted (entry : Har.entry) (rest : list Har.entry)
      (s0 : pyset) :
  accepted base entry = true ->
  extract_loop rt base start (entry :: rest) s0 =
  (e <- make_endpoint rt start entry ;;
   s1 <- set_add rt s0 e ;;
   extract_loop rt base start rest s1).
Proof.
  intros H. apply accepted_iff in H as [Hm Hu]. simpl.
  apply String.eqb_neq in Hm. now rewrite Hm, Hu.
Qed.

Lemma extract_loop_skipped (entry : Har.entry) (rest : list Har.entry)
      (s0 : pyset) :
  accepted base entry = false ->
  extract_loop rt base start (entry :: rest) s0 =
  extract_loop rt base start rest s0.
Proof.
  unfold accepted. intros H. simpl.
  destruct (String.eqb (Har.req_method (Har.e_request entry)) "OPTIONS");
    [reflexivity |].
  simpl in H. now rewrite H.
Qed.

(** An entry that the filter rejects leaves no mark on the run. *)
Lemma extract_loop_drop (l1 l2 : list Har.entry) (x : Har.entry)
      (s0 : pyset) :
  accepted base x = false ->
  extract_loop rt base start (l1 ++ x :: l2) s0 =
  extract_loop rt base start (l1 ++ l2) s0.
Proof.
  intros Hx. revert s0. induction l1 as [| y l1 IH]; intros s0.
  - simpl app. now apply extract_loop_skipped.
  - rewrite <- !app_comm_cons.
    destruct (accepted base y) eqn:Hy.
    + rewrite !extract_loop_accepted by exact Hy.
      destruct (make_endpoint rt start y) as [e |]; simpl; [| reflexivity].
      destruct (set_add rt s0 e) as [s1 |]; simpl; [| reflexivity].
      apply IH.
    + rewrite !extract_loop_skipped by exact Hy. apply IH.
Qed.

(** An accepted entry whose endpoint cannot be built stops the loop, at
    that entry or before. *)
Lemma extract_loop_raises (entries : list Har.entry) (x : Har.entry)
      (err : exn) (s0 : pyset) :
  In x entries ->
  accepted base x = true ->
  make_endpoint rt start x = Raise err ->
  exists err', extract_loop rt base start entries s0 = Raise err'.
Proof.
  intros Hin Hx Herr. revert s0.
  induction entries as [| y rest IH]; intros s0; [destruct Hin |].
  destruct (accepted base y) eqn:Hy.
  - rewrite extract_loop_accepted by exact Hy.
    destruct (make_endpoint rt start y) as [e |] eqn:Hmk; simpl.
    + destruct (set_add rt s0 e) as [s1 |]; simpl.
      * destruct Hin as [-> | Hin]; [congruence | now apply IH].
      * eauto.
    + eauto.
  - rewrite extract_loop_skipped by exact Hy.
    destruct Hin as [-> | Hin]; [congruence | now apply IH].
Qed.

(** What [set_add] returns: the set itself, or the set with the hashed
    candidate at its end. *)
Lemma set_add_cases (s0 s1 : pyset) (e : Endpoint.t) :
  set_add rt s0 e = Ok s1 ->
  exists h, endpoint_hash rt e = Ok h /\
            ((existsb (fun p => same_entry p (h, e)) s0 = true /\ s1 = s0)
             \/ (existsb (fun p => same_entry p (h, e)) s0 = false
                 /\ s1 = (s0 ++ [(h, e)])%list)).
Proof.
  unfold set_add. destruct (endpoint_hash rt e) as [h |]; simpl;
    [| discriminate].
  intros H. exists h. split; [reflexivity |].
  unfold same_entry. simpl.
  destruct (existsb _ s0); injection H as <-; auto.
Qed.

(** Every element of the outcome was in the set at the start or built
    from an accepted entry. *)
Lemma extract_loop_origin (entries : list Har.entry) (s0 s : pyset)
      (e : Endpoint.t) :
  extract_loop rt base start entries s0 = Ok s ->
  In e (elements s) ->
  In e (elements s0)
  \/ exists x, In x entries /\ accepted base x = true
               /\ make_endpoint rt start x = Ok e.
Proof.
  revert s0. induction entries as [| y rest IH]; intros s0 Hrun Hin.
  - injection Hrun as <-. now left.
  - destruct (accepted base y) eqn:Hy.
    + rewrite extract_loop_accepted in Hrun by exact Hy.
      destruct (make_endpoint rt start y) as [ey |] eqn:Hmk; simpl in Hrun;
        [| discriminate].
      destruct (set_add rt s0 ey) as [s1 |] eqn:Hadd; simpl in Hrun;
        [| discriminate].
      destruct (IH s1 Hrun Hin) as [H1 | (x & Hx & Hacc & Hbuilt)].
      * destruct (set_add_cases _ _ _ Hadd) as (h & _ & [[_ ->] | [_ ->]]).
        -- now left.
        -- unfold elements in H1. rewrite map_app in H1.
           apply in_app_or in H1 as [H1 | [<- | []]].
           ++ now left.
           ++ right. exists y. simpl. auto.
      * right. exists x. simpl. auto.
    + rewrite extract_loop_skipped in Hrun by exact Hy.
      destruct (IH s0 Hrun Hin) as [H1 | (x & Hx & Hacc & Hbuilt)].
      * now left.
      * right. exists x. simpl. auto.
Qed.

End Loop.

(** C3. Every endpoint of the collection that [get_endpoints] returns is
    built from an entry of the log whose method is not [OPTIONS] and
    whose URL starts with the base URL; and an entry that fails either
    test contributes nothing: the run is the run on the log without
    it. *)
Theorem accepted_entries_only (rt : Builtins) (file base : string)
        (data : Har.t) :
  json_load rt file = Ok data ->
  (forall s e,
      get_endpoints rt file base = Ok s ->
      In e (elements s) ->
      exists x,
        In x (Har.entries (Har.har_log data))
        /\ Har.req_method (Har.e_request x) <> "OPTIONS"
        /\ Str.startswith (Har.req_url (Har.e_request x)) base = true
        /\ make_endpoint rt (Str.len base) x = Ok e)
  /\
  (forall l1 x l2,
      Har.entries (Har.har_log data) = (l1 ++ x :: l2)%list ->
      Har.req_method (Har.e_request x) = "OPTIONS"
      \/ Str.startswith (Har.req_url (Har.e_request x)) base = false ->
      get_endpoints rt file base =
      extract_loop rt base (Str.len base) (l1 ++ l2) []).
Proof.
  intros Hload. unfold get_endpoints. rewrite Hload. simpl. split.
  - intros s e Hrun Hin.
    destruct (extract_loop_origin rt base _ _ _ _ e Hrun Hin)
      as [[] | (x & Hx & Hacc & Hbuilt)].
    apply accepted_iff in Hacc as [Hm Hu]. eauto.
  - intros l1 x l2 Hsplit Hrej. rewrite Hsplit.
    apply extract_loop_drop. unfold accepted.
    destruct Hrej as [-> | ->]; [reflexivity | apply andb_false_r].
Qed.

(** ** Failures of a run *)

Section Failures.
Variable rt : Builtins.

Lemma get_body_missing (req : Har.request) :
  body_text req = None -> get_body rt req = Ok (JObject []).
Proof.
  unfold body_text, get_body.
  destruct (Har.req_postData req) as [pd |]; [| reflexivity].
  now intros ->.
Qed.

Lemma get_body_present (req : Har.request) (text : string) :
  body_text req = Some text -> get_body rt req = loads rt text.
Proof.
  unfold body_text, get_body.
  destruct (Har.req_postData req) as [pd |]; [| discriminate].
  now intros ->.
Qed.

Lemma get_content_missing (res : Har.response) :
  content_text res = None -> get_content rt res = Ok (JObject []).
Proof.
  unfold content_text, get_content.
  destruct (Har.res_content res) as [c |]; [| reflexivity].
  now intros ->.
Qed.

Lemma get_content_present (res : Har.response) (text : string) :
  content_text res = Some text -> get_content rt res = loads rt text.
Proof.
  unfold content_text, get_content.
  destruct (Har.res_content res) as [c |]; [| discriminate].
  now intros ->.
Qed.

Lemma loads_malformed (text : string) :
  json_loads rt text = None -> loads rt text = Raise JSONDecodeError.
Proof. unfold loads. now intros ->. Qed.

(** [make_endpoint] decodes the body, then the content, then normalises
    the URL: a failure of any of the three is its failure. *)
Lemma make_endpoint_raises (start : Z) (entry : Har.entry) :
  (exists err, get_body rt (Har.e_request entry) = Raise err)
  \/ (exists err, get_content rt (Har.e_response entry) = Raise err)
  \/ (exists err, get_url (Har.e_request entry) start = Raise err) ->
  exists err, make_endpoint rt start entry = Raise err.
Proof.
  unfold make_endpoint.
  destruct (get_body rt (Har.e_request entry)) as [b | eb]; simpl;
    [| eauto].
  destruct (get_content rt (Har.e_response entry)) as [c | ec]; simpl;
    [| eauto].
  destruct (get_url (Har.e_request entry) start) as [u | eu]; simpl;
    [| eauto].
  intros [[err H] | [[err H] | [err H]]]; discriminate.
Qed.

(** A run whose extraction fails ends with the exception, having opened
    the HAR file and done nothing else. *)
Lemma main_extraction_raises (argv : list string) (text : string)
      (err : exn) :
  List.length argv = 4%nat ->
  open_read rt (nth 1 argv EmptyString) = Ok text ->
  get_endpoints rt text (nth 2 argv EmptyString) = Raise err ->
  main rt argv = ([Open (nth 1 argv EmptyString) "r"], Raise err).
Proof.
  intros Hlen Hopen Hext. unfold main. rewrite Hlen.
  change (negb (Z.of_nat 4 =? 4)) with false. cbv iota.
  unfold emit, io_lift. rewrite Hopen. cbn [io_bind]. rewrite Hext.
  reflexivity.
Qed.

Lemma get_endpoints_raises (file base : string) (data : Har.t)
      (entry : Har.entry) (err : exn) :
  json_load rt file = Ok data ->
  In entry (Har.entries (Har.har_log data)) ->
  accepted base entry = true ->
  make_endpoint rt (Str.len base) entry = Raise err ->
  exists err', get_endpoints rt file base = Raise err'.
Proof.
  intros Hload Hin Hacc Hmk. unfold get_endpoints. rewrite Hload. simpl.
  eapply extract_loop_raises; eauto.
Qed.

End Failures.

(** C5. Absence and malformedness are told apart. When the text of the
    request body (of the response content) is missing, [get_body]
    ([get_content]) returns the empty mapping. When it is present and
    [json.loads] rejects it, the function raises the decoder's error; a
    log that holds an accepted entry with such a text makes
    [get_endpoints] raise, and the run ends with that exception before
    anything is listed or written. *)
Theorem missing_text_is_empty_malformed_raises (rt : Builtins)
        (entry : Har.entry) :
  let req := Har.e_request entry in
  let res := Har.e_response entry in
  (body_text req = None -> get_body rt req = Ok (JObject []))
  /\ (content_text res = None -> get_content rt res = Ok (JObject []))
  /\ (forall text, body_text req = Some text ->
                   json_loads rt text = None ->
                   get_body rt req = Raise JSONDecodeError)
  /\ (forall text, content_text res = Some text ->
                   json_loads rt text = None ->
                   get_content rt res = Raise JSONDecodeError)
  /\ (forall text argv file data,
         (body_text req = Some text \/ content_text res = Some text) ->
         json_loads rt text = None ->
         List.length argv = 4%nat ->
         open_read rt (nth 1 argv EmptyString) = Ok file ->
         json_load rt file = Ok data ->
         In entry (Har.entries (Har.har_log data)) ->
         accepted (nth 2 argv EmptyString) entry = true ->
         exists err,
           get_endpoints rt file (nth 2 argv EmptyString) = Raise err
           /\ main rt argv = ([Open (nth 1 argv EmptyString) "r"],
                              Raise err)).
Proof.
  intros req res.
  assert (Hbody : forall text, body_text req = Some text ->
                               json_loads rt text = None ->
                               get_body rt req = Raise JSONDecodeError).
  { intros text Ht Hbad. rewrite (get_body_present rt req text Ht).
    now apply loads_malformed. }
  assert (Hcontent : forall text, content_text res = Some text ->
                                  json_loads rt text = None ->
                                  get_content rt res = Raise JSONDecodeError).
  { intros text Ht Hbad. rewrite (get_content_present rt res text Ht).
    now apply loads_malformed. }
  repeat split.
  - apply get_body_missing.
  - apply get_content_missing.
  - exact Hbody.
  - exact Hcontent.
  - intros text argv file data Htext Hbad Hlen Hopen Hload Hin Hacc.
    destruct (make_endpoint_raises rt (Str.len (nth 2 argv EmptyString)) entry)
      as [err Hmk].
    { destruct Htext as [Ht | Ht].
      - left. eexists. now apply (Hbody text).
      - right. left. eexists. now apply (Hcontent text). }
    destruct (get_endpoints_raises rt file _ data entry err Hload Hin Hacc Hmk)
      as [err' Hext].
    exists err'. split; [exact Hext |].
    now apply main_extraction_raises with (text := file).
Qed.

(** C9. When the URL of a request is the base URL, alone or followed by
    a query string only, [get_url] is left with the empty string and
    raises [IndexError] on reading its last character; a log that holds
    such an entry, with a method other than [OPTIONS], makes
    [get_endpoints] raise instead of returning a collection. *)
Theorem get_url_of_base_raises (rt : Builtins) (base q : string)
        (req : Har.request) :
  Har.req_url req = (base ++ q)%string ->
  q = EmptyString \/ (exists q', q = String question q') ->
  get_url req (Str.len base) = Raise IndexError
  /\ (forall file data entry,
         json_load rt file = Ok data ->
         In entry (Har.entries (Har.har_log data)) ->
         Har.e_request entry = req ->
         Har.req_method req <> "OPTIONS" ->
         exists err, get_endpoints rt file base = Raise err).
Proof.
  intros Hurl Hq.
  assert (Hraise : get_url req (Str.len base) = Raise IndexError).
  { unfold get_url. rewrite Hurl, StrFacts.slice_from_append.
    destruct Hq as [-> | [q' ->]].
    - reflexivity.
    - simpl. reflexivity. }
  split; [exact Hraise |].
  intros file data entry Hload Hin Hreq Hm.
  destruct (make_endpoint_raises rt (Str.len base) entry) as [err Hmk].
  { right. right. exists IndexError. now rewrite Hreq. }
  apply (get_endpoints_raises rt file base data entry err Hload Hin);
    [| exact Hmk].
  apply accepted_iff. rewrite Hreq. split; [exact Hm |].
  rewrite Hurl. apply StrFacts.startswith_append.
Qed.

(** ** Deduplication *)

Section Dedup.
Variable rt : Builtins.
Variables (base : string) (start : Z).

Lemma endpoint_eqb_refl (e : Endpoint.t) : Endpoint.eqb e e = true.
Proof. unfold Endpoint.eqb. now rewrite !String.eqb_refl. Qed.

Lemma endpoint_eqb_sym (a b : Endpoint.t) :
  Endpoint.eqb a b = Endpoint.eqb b a.
Proof.
  unfold Endpoint.eqb.
  now rewrite (String.eqb_sym (Endpoint.method a)),
              (String.eqb_sym (Endpoint.url a)).
Qed.

Lemma endpoint_eqb_trans (a b c : Endpoint.t) :
  Endpoint.eqb a b = true -> Endpoint.eqb b c = true ->
  Endpoint.eqb a c = true.
Proof.
  unfold Endpoint.eqb. rewrite !andb_true_iff, !String.eqb_eq.
  intros [-> ->] [-> ->]. auto.
Qed.

Lemma same_entry_refl (p : Z * Endpoint.t) : same_entry p p = true.
Proof. unfold same_entry. now rewrite Z.eqb_refl, endpoint_eqb_refl. Qed.

Lemma same_entry_sym (p q : Z * Endpoint.t) : same_entry p q = same_entry q p.
Proof. unfold same_entry. now rewrite Z.eqb_sym, endpoint_eqb_sym. Qed.

Lemma same_entry_trans (p q r : Z * Endpoint.t) :
  same_entry p q = true -> same_entry q r = true -> same_entry p r = true.
Proof.
  unfold same_entry. rewrite !andb_true_iff, !Z.eqb_eq.
  intros [-> Hpq] [-> Hqr]. split; [reflexivity |].
  eapply endpoint_eqb_trans; eauto.
Qed.

(** The hash of an endpoint is that of its method, its url, its
    parameter names and the field names of its body, in this order. *)
Lemma endpoint_hash_inv (e : Endpoint.t) (h : Z) :
  endpoint_hash rt e = Ok h ->
  h = hash rt (Endpoint.method e :: Endpoint.url e
               :: keys (Request.params (Endpoint.request e))
               ++ body_names (Request.body (Endpoint.request e)))%list.
Proof.
  unfold endpoint_hash, Endpoint.hash_args, Endpoint.body_keys, body_names.
  destruct (Request.body (Endpoint.request e)); simpl; try discriminate.
  now intros [= <-].
Qed.

(** Endpoints with one structural key are one element for a set. *)
Lemma same_key_same_entry (e1 e2 : Endpoint.t) (h1 h2 : Z) :
  endpoint_hash rt e1 = Ok h1 ->
  endpoint_hash rt e2 = Ok h2 ->
  structural_key e1 = structural_key e2 ->
  same_entry (h1, e1) (h2, e2) = true.
Proof.
  intros H1 H2 Hk.
  apply endpoint_hash_inv in H1, H2. unfold structural_key in Hk.
  injection Hk as Hm Hu Hp Hb.
  unfold same_entry, Endpoint.eqb. simpl.
  rewrite H1, H2, Hm, Hu, Hp, Hb.
  now rewrite Z.eqb_refl, !String.eqb_refl.
Qed.

Lemma FOP_snoc (A : Type) (R : A -> A -> Prop) (l : list A) (x : A) :
  ForallOrdPairs R l -> Forall (fun a => R a x) l ->
  ForallOrdPairs R (l ++ [x]).
Proof.
  induction 1 as [| a l Ha Hl IH]; intros Hx; simpl.
  - constructor; constructor.
  - inversion Hx as [| ? ? Hax Hlx]; subst.
    constructor.
    + apply Forall_app. split; [exact Ha | now constructor].
    + now apply IH.
Qed.

Lemma set_inv_nil : set_inv rt [].
Proof. split; constructor. Qed.

Lemma set_add_inv (s0 s1 : pyset) (e : Endpoint.t) :
  set_inv rt s0 -> set_add rt s0 e = Ok s1 -> set_inv rt s1.
Proof.
  intros [Hh Hd] Hadd.
  destruct (set_add_cases rt _ _ _ Hadd) as (h & He & [[_ ->] | [Hnew ->]]).
  - now split.
  - split.
    + apply Forall_app. split; [exact Hh |]. now constructor.
    + apply FOP_snoc; [exact Hd |].
      apply Forall_forall. intros p Hp.
      destruct (same_entry p (h, e)) eqn:E; [| reflexivity].
      assert (existsb (fun p => same_entry p (h, e)) s0 = true)
        by (apply existsb_exists; eauto).
      congruence.
Qed.

(** After [set_add], the set holds an element that stands for the
    candidate, and all that it held. *)
Lemma set_add_holds (s0 s1 : pyset) (e : Endpoint.t) :
  set_add rt s0 e = Ok s1 ->
  incl s0 s1
  /\ exists h p, endpoint_hash rt e = Ok h /\ In p s1
                 /\ same_entry p (h, e) = true.
Proof.
  intros Hadd.
  destruct (set_add_cases rt _ _ _ Hadd) as (h & He & [[Hold ->] | [_ ->]]).
  - split; [apply incl_refl |].
    apply existsb_exists in Hold as (p & Hp & Hsame). eauto.
  - split; [apply incl_appl, incl_refl |].
    exists h, (h, e). repeat split; [exact He | | apply same_entry_refl].
    apply in_or_app. right. now left.
Qed.

Lemma extract_loop_inv (entries : list Har.entry) (s0 s : pyset) :
  set_inv rt s0 -> extract_loop rt base start entries s0 = Ok s ->
  set_inv rt s /\ incl s0 s.
Proof.
  revert s0. induction entries as [| y rest IH]; intros s0 Hinv Hrun.
  - injection Hrun as <-. split; [exact Hinv | apply incl_refl].
  - destruct (accepted base y) eqn:Hy.
    + rewrite extract_loop_accepted in Hrun by exact Hy.
      destruct (make_endpoint rt start y) as [ey |]; simpl in Hrun;
        [| discriminate].
      destruct (set_add rt s0 ey) as [s1 |] eqn:Hadd; simpl in Hrun;
        [| discriminate].
      destruct (IH s1 (set_add_inv _ _ _ Hinv Hadd) Hrun) as [Hs Hincl].
      split; [exact Hs |].
      eapply incl_tran; [apply (set_add_holds _ _ _ Hadd) | exact Hincl].
    + rewrite extract_loop_skipped in Hrun by exact Hy. now apply IH.
Qed.

(** In a run that returns, every accepted entry gave an endpoint, and
    the outcome holds an element that stands for it. *)
Lemma extract_loop_represents (entries : list Har.entry) (s0 s : pyset)
      (x : Har.entry) :
  set_inv rt s0 ->
  extract_loop rt base start entries s0 = Ok s ->
  In x entries -> accepted base x = true ->
  exists ex h p, make_endpoint rt start x = Ok ex
                 /\ endpoint_hash rt ex = Ok h
                 /\ In p s /\ same_entry p (h, ex) = true.
Proof.
  revert s0. induction entries as [| y rest IH]; intros s0 Hinv Hrun Hin Hx;
    [destruct Hin |].
  destruct (accepted base y) eqn:Hy.
  - rewrite extract_loop_accepted in Hrun by exact Hy.
    destruct (make_endpoint rt start y) as [ey |] eqn:Hmk; simpl in Hrun;
      [| discriminate].
    destruct (set_add rt s0 ey) as [s1 |] eqn:Hadd; simpl in Hrun;
      [| discriminate].
    pose proof (set_add_inv _ _ _ Hinv Hadd) as Hinv1.
    destruct Hin as [-> | Hin].
    + destruct (set_add_holds _ _ _ Hadd) as (_ & h & p & Hh & Hp & Hsame).
      destruct (extract_loop_inv _ _ _ Hinv1 Hrun) as [_ Hincl].
      exists ey, h, p. auto.
    + now apply (IH s1).
  - rewrite extract_loop_skipped in Hrun by exact Hy.
    destruct Hin as [-> | Hin]; [congruence | now apply (IH s0)].
Qed.

(** Every element of the outcome that was not in the set at the start
    was inserted by an accepted entry before which no accepted entry
    gave an endpoint that is the same element. *)
Lemma extract_loop_first (entries : list Har.entry) (s0 s : pyset)
      (p : Z * Endpoint.t) :
  extract_loop rt base start entries s0 = Ok s ->
  In p s ->
  In p s0
  \/ exists l1 x l2,
      entries = (l1 ++ x :: l2)%list
      /\ accepted base x = true
      /\ make_endpoint rt start x = Ok (snd p)
      /\ (forall q, In q s0 -> same_entry q p = false)
      /\ (forall y ey hy,
             In y l1 -> accepted base y = true ->
             make_endpoint rt start y = Ok ey ->
             endpoint_hash rt ey = Ok hy ->
             same_entry (hy, ey) p = false).
Proof.
  revert s0. induction entries as [| y rest IH]; intros s0 Hrun Hin.
  - injection Hrun as <-. now left.
  - destruct (accepted base y) eqn:Hy.
    + rewrite extract_loop_accepted in Hrun by exact Hy.
      destruct (make_endpoint rt start y) as [ey |] eqn:Hmk; simpl in Hrun;
        [| discriminate].
      destruct (set_add rt s0 ey) as [s1 |] eqn:Hadd; simpl in Hrun;
        [| discriminate].
      destruct (set_add_cases rt _ _ _ Hadd) as (h & He & Hcases).
      destruct (IH s1 Hrun Hin)
        as [H1 | (l1 & x & l2 & -> & Hx & Hbuilt & Hnone & Hearlier)].
      * destruct Hcases as [[_ ->] | [Hnew ->]]; [now left |].
        apply in_app_or in H1 as [H1 | [<- | []]]; [now left |].
        right. exists [], y, rest. simpl. repeat split; auto.
        -- intros q Hq.
           destruct (same_entry q (h, ey)) eqn:E; [| reflexivity].
           assert (existsb (fun p => same_entry p (h, ey)) s0 = true)
             by (apply existsb_exists; eauto).
           congruence.
        -- intros ? ? ? [].
      * right. exists (y :: l1), x, l2. repeat split; auto.
        -- intros q Hq. apply Hnone.
           destruct Hcases as [[_ ->] | [_ ->]]; [exact Hq |].
           apply in_or_app. now left.
        -- intros y' ey' hy' [<- | Hy'] Hacc' Hmk' Hh'; [| eauto].
           assert (ey' = ey) by congruence. subst ey'.
           assert (hy' = h) by congruence. subst hy'.
           destruct Hcases as [[Hold ->] | [_ ->]].
           ++ apply existsb_exists in Hold as (q & Hq & Hsame).
              destruct (same_entry (h, ey) p) eqn:E; [| reflexivity].
              rewrite <- (Hnone q Hq). symmetry.
              eapply same_entry_trans; eauto.
           ++ apply Hnone. apply in_or_app. right. now left.
    + rewrite extract_loop_skipped in Hrun by exact Hy.
      destruct (IH s0 Hrun Hin)
        as [H1 | (l1 & x & l2 & -> & Hx & Hbuilt & Hnone & Hearlier)];
        [now left |].
      right. exists (y :: l1), x, l2. repeat split; auto.
      intros y' ey' hy' [<- | Hy'] Hacc'; [congruence | eauto].
Qed.

(** A set that satisfies its invariant holds at most one endpoint per
    structural key. *)
Lemma set_inv_key_unique (s : pyset) (p q : Z * Endpoint.t) :
  set_inv rt s -> In p s -> In q s ->
  structural_key (snd p) = structural_key (snd q) -> p = q.
Proof.
  intros [Hh Hd] Hp Hq Hk.
  rewrite Forall_forall in Hh.
  assert (Hsame : same_entry p q = true).
  { destruct p as [hp ep], q as [hq eq]. simpl in Hk.
    apply same_key_same_entry; [apply (Hh _ Hp) | apply (Hh _ Hq) | exact Hk]. }
  destruct (ForallOrdPairs_In Hd p q Hp Hq) as [E | [E | E]];
    [exact E | congruence |].
  rewrite same_entry_sym in E. congruence.
Qed.


End Dedup.

Section Collection.
Variable rt : Builtins.
Variables (file base : string) (data : Har.t) (s : pyset).
Hypothesis Hload : json_load rt file = Ok data.
Hypothesis Hrun : get_endpoints rt file base = Ok s.

Lemma get_endpoints_loop :
  extract_loop rt base (Str.len base) (Har.entries (Har.har_log data)) []
  = Ok s.
Proof. unfold get_endpoints in Hrun. now rewrite Hload in Hrun. Qed.

Lemma get_endpoints_inv : set_inv rt s.
Proof.
  apply (extract_loop_inv rt base _ _ _ _ (set_inv_nil rt) get_endpoints_loop).
Qed.

Lemma elements_In (e : Endpoint.t) :
  In e (elements s) <-> exists h, In (h, e) s.
Proof.
  unfold elements. rewrite in_map_iff. split.
  - intros ([h e'] & <- & Hp). now exists h.
  - intros [h Hp]. now exists (h, e).
Qed.

Lemma stored_hash (h : Z) (e : Endpoint.t) :
  In (h, e) s -> endpoint_hash rt e = Ok h.
Proof.
  intros Hp. destruct get_endpoints_inv as [Hh _].
  rewrite Forall_forall in Hh. apply (Hh _ Hp).
Qed.

Lemma stands_for_same_entry (hz h : Z) (z e : Endpoint.t) :
  In (hz, z) s -> endpoint_hash rt e = Ok h ->
  (stands_for rt z e <-> same_entry (hz, z) (h, e) = true).
Proof.
  intros Hz He. pose proof (stored_hash _ _ Hz) as Hhz.
  unfold stands_for, same_entry. simpl.
  rewrite andb_true_iff, Z.eqb_eq. split.
  - intros (h' & H1 & H2 & Heq). split; [congruence | exact Heq].
  - intros [-> Heq]. exists h. auto.
Qed.

(** Each accepted entry is stood for by exactly one element. *)
Lemma one_stands_for (x : Har.entry) (ex : Endpoint.t) :
  In x (Har.entries (Har.har_log data)) ->
  accepted base x = true ->
  make_endpoint rt (Str.len base) x = Ok ex ->
  exists h hz z,
    endpoint_hash rt ex = Ok h /\ In (hz, z) s
    /\ same_entry (hz, z) (h, ex) = true
    /\ forall hz' z', In (hz', z') s ->
                      same_entry (hz', z') (h, ex) = true ->
                      (hz', z') = (hz, z).
Proof.
  intros Hin Hacc Hmk.
  destruct (extract_loop_represents rt base _ _ _ _ x (set_inv_nil rt)
              get_endpoints_loop Hin Hacc)
    as (ex' & h & [hz z] & Hmk' & Hh & Hp & Hsame).
  assert (ex' = ex) by congruence. subst ex'.
  exists h, hz, z. repeat split; auto.
  intros hz' z' Hp' Hsame'.
  destruct get_endpoints_inv as [_ Hd].
  assert (Hpp : same_entry (hz', z') (hz, z) = true).
  { eapply same_entry_trans; [exact Hsame' |].
    now rewrite same_entry_sym. }
  destruct (ForallOrdPairs_In Hd _ _ Hp' Hp) as [E | [E | E]];
    [exact E | congruence |].
  rewrite same_entry_sym in E. congruence.
Qed.

End Collection.


(** Whatever the hash function, as long as it tells the two orders of
    the names [a] and [b] apart: the requests [users_ab] and [users_ba]
    give two endpoints. *)
Lemma reordered_names_kept (rt : Builtins) (file : string) :
  json_load rt file = Ok (Demo.har [Demo.users_ab; Demo.users_ba]) ->
  hash rt ["GET"; "/users/"; "a"; "b"] <> hash rt ["GET"; "/users/"; "b"; "a"] ->
  exists s, get_endpoints rt file Demo.base = Ok s
            /\ elements s = [Demo.endpoint_ab; Demo.endpoint_ba].
Proof.
  intros Hload Hhash. unfold get_endpoints. rewrite Hload.
  cbn [bind Har.entries Har.har_log Demo.har].
  rewrite extract_loop_accepted by reflexivity.
  change (make_endpoint rt (Str.len Demo.base) Demo.users_ab)
    with (Ok Demo.endpoint_ab).
  cbn [bind]. unfold set_add at 1.
  change (endpoint_hash rt Demo.endpoint_ab)
    with (Ok (hash rt ["GET"; "/users/"; "a"; "b"])).
  cbn [bind existsb app].
  rewrite extract_loop_accepted by reflexivity.
  change (make_endpoint rt (Str.len Demo.base) Demo.users_ba)
    with (Ok Demo.endpoint_ba).
  cbn [bind]. unfold set_add.
  change (endpoint_hash rt Demo.endpoint_ba)
    with (Ok (hash rt ["GET"; "/users/"; "b"; "a"])).
  cbn [bind existsb fst snd orb].
  apply Z.eqb_neq in Hhash. rewrite Hhash.
  cbn [andb app extract_loop]. eexists. split; reflexivity.
Qed.


(** X25. Every endpoint of the collection that [get_endpoints] returns
    is the one built from the first accepted entry of the log with its
    structural key, with the values of that entry; and no other endpoint
    of the collection has this key, so that the later entries with the
    key have replaced nothing. *)
Theorem first_encountered_retained (rt : Builtins) (file base : string)
        (data : Har.t) (s : pyset) (e : Endpoint.t) :
  json_load rt file = Ok data ->
  get_endpoints rt file base = Ok s ->
  In e (elements s) ->
  (exists l1 x l2,
      Har.entries (Har.har_log data) = (l1 ++ x :: l2)%list
      /\ accepted base x = true
      /\ make_endpoint rt (Str.len base) x = Ok e
      /\ forall y ey,
          In y l1 -> accepted base y = true ->
          make_endpoint rt (Str.len base) y = Ok ey ->
          structural_key ey <> structural_key e)
  /\
  (forall e', In e' (elements s) ->
              structural_key e' = structural_key e -> e' = e).
Proof.
  intros Hload Hrun He.
  pose proof (get_endpoints_inv rt file base data s Hload Hrun) as Hinv.
  pose proof (get_endpoints_loop rt file base data s Hload Hrun) as Hloop.
  apply (elements_In s) in He as [h Hp].
  split.
  - destruct (extract_loop_first rt base _ _ _ _ (h, e) Hloop Hp)
      as [[] | (l1 & x & l2 & Hsplit & Hx & Hbuilt & _ & Hearlier)].
    exists l1, x, l2. repeat split; auto.
    intros y ey Hy Hay Hmk Hk.
    assert (Hyin : In y (Har.entries (Har.har_log data))).
    { rewrite Hsplit. apply in_or_app. now left. }
    destruct (extract_loop_represents rt base _ _ _ _ y (set_inv_nil rt)
                Hloop Hyin Hay)
      as (ey' & hy & _ & Hmk' & Hhy & _).
    assert (ey' = ey) by congruence. subst ey'.
    specialize (Hearlier y ey hy Hy Hay Hmk Hhy).
    rewrite (same_key_same_entry rt ey e hy h Hhy) in Hearlier;
      [discriminate | | exact Hk].
    apply (stored_hash rt file base data s Hload Hrun _ _ Hp).
  - intros e' He' Hk.
    apply (elements_In s) in He' as [h' Hp'].
    assert (E : (h', e') = (h, e)).
    { apply (set_inv_key_unique rt s); auto. }
    congruence.
Qed.

(** ** The order of the output *)

Section Sorting.

Lemma ltb_true_le (y x : Endpoint.t) :
  Endpoint.ltb y x = true -> key_le y x.
Proof.
  unfold Endpoint.ltb, Str.ltb, key_le.
  destruct (String.compare (Endpoint.method y) (Endpoint.method x)) eqn:Em;
    [| now left | discriminate].
  apply String.compare_eq_iff in Em.
  destruct (String.compare (Endpoint.url y) (Endpoint.url x)) eqn:Eu;
    try discriminate.
  intros _. right. split; [exact Em | congruence].
Qed.

Lemma ltb_false_le (y x : Endpoint.t) :
  Endpoint.ltb y x = false -> key_le x y.
Proof.
  unfold Endpoint.ltb, Str.ltb, key_le.
  rewrite (String.compare_antisym (Endpoint.method x) (Endpoint.method y)).
  rewrite (String.compare_antisym (Endpoint.url x) (Endpoint.url y)).
  destruct (String.compare (Endpoint.method y) (Endpoint.method x)) eqn:Em;
    simpl; [| discriminate | now left].
  apply String.compare_eq_iff in Em.
  destruct (String.compare (Endpoint.url y) (Endpoint.url x)) eqn:Eu;
    simpl; try discriminate; intros _; right; split; auto; discriminate.
Qed.

Lemma insert_In (x e : Endpoint.t) (l : list Endpoint.t) :
  In e (insert x l) -> e = x \/ In e l.
Proof.
  induction l as [| y r IH]; simpl.
  - intros [<- | []]. now left.
  - destruct (Endpoint.ltb y x); simpl.
    + intros [<- | H]; [auto | destruct (IH H); auto].
    + intros [<- | H]; auto.
Qed.

Lemma sorted_In (e : Endpoint.t) (l : list Endpoint.t) :
  In e (sorted l) -> In e l.
Proof.
  induction l as [| x r IH]; simpl; [auto |].
  intros H. apply insert_In in H as [-> | H]; auto.
Qed.

Lemma insert_HdRel (x a : Endpoint.t) (l : list Endpoint.t) :
  key_le a x -> HdRel key_le a l -> HdRel key_le a (insert x l).
Proof.
  intros Hax Hal. destruct l as [| y r]; simpl.
  - now constructor.
  - destruct (Endpoint.ltb y x); constructor; [| exact Hax].
    now inversion Hal.
Qed.

Lemma insert_Sorted (x : Endpoint.t) (l : list Endpoint.t) :
  Sorted key_le l -> Sorted key_le (insert x l).
Proof.
  induction 1 as [| y r Hr IH Hy]; simpl.
  - repeat constructor.
  - destruct (Endpoint.ltb y x) eqn:E.
    + constructor; [exact IH |].
      apply insert_HdRel; [now apply ltb_true_le | exact Hy].
    + constructor; [now constructor |].
      constructor. now apply ltb_false_le.
Qed.

(** [sorted] returns a sequence that does not decrease under the order
    of [(method, url)]. *)
Lemma sorted_Sorted (l : list Endpoint.t) : Sorted key_le (sorted l).
Proof.
  induction l as [| x r IH]; simpl; [constructor |].
  now apply insert_Sorted.
Qed.

End Sorting.

(** ** Traces *)

Section Traces.
Variable rt : Builtins.

Lemma io_bind_fst (A B : Type) (m : io A) (k : A -> io B) :
  fst (io_bind m k) =
  (fst m ++ match snd m with
            | Ok a => fst (k a)
            | Raise _ => []
            end)%list.
Proof.
  destruct m as [tr [a | e]]; simpl.
  - now destruct (k a).
  - now rewrite app_nil_r.
Qed.

Lemma io_bind_snd (A B : Type) (m : io A) (k : A -> io B) :
  snd (io_bind m k) =
  match snd m with
  | Ok a => snd (k a)
  | Raise e => Raise e
  end.
Proof.
  destruct m as [tr [a | e]]; simpl; [| reflexivity].
  now destruct (k a).
Qed.

Lemma forallb_bind (A B : Type) (P : event -> bool) (m : io A)
      (k : A -> io B) :
  forallb P (fst m) = true ->
  (forall a, forallb P (fst (k a)) = true) ->
  forallb P (fst (io_bind m k)) = true.
Proof.
  intros Hm Hk. rewrite io_bind_fst, forallb_app, Hm. simpl.
  destruct (snd m); [apply Hk | reflexivity].
Qed.

Lemma forallb_for_each (A : Type) (P : event -> bool) (xs : list A)
      (body : A -> io unit) :
  (forall x, forallb P (fst (body x)) = true) ->
  forallb P (fst (for_each xs body)) = true.
Proof.
  intros Hb. induction xs as [| x r IH]; simpl for_each.
  - reflexivity.
  - apply forallb_bind; [apply Hb | intros _; exact IH].
Qed.

Lemma for_each_ok (A : Type) (xs : list A) (body : A -> io unit) :
  (forall x, snd (body x) = Ok tt) -> snd (for_each xs body) = Ok tt.
Proof.
  intros Hb. induction xs as [| x r IH]; simpl for_each.
  - reflexivity.
  - rewrite io_bind_snd, Hb. exact IH.
Qed.

Lemma stdout_app (t1 t2 : list event) :
  stdout (t1 ++ t2) = (stdout t1 ++ stdout t2)%list.
Proof. apply flat_map_app. Qed.

Lemma appended_app (name : string) (t1 t2 : list event) :
  appended name (t1 ++ t2) = (appended name t1 ++ appended name t2)%list.
Proof. apply flat_map_app. Qed.

Lemma page_writes_appended (name : string) (tr : list event) :
  forallb is_page_write tr = true -> appended name tr = [].
Proof.
  induction tr as [| ev tr IH]; simpl; [reflexivity |].
  rewrite andb_true_iff. intros [Hev Htr].
  rewrite (IH Htr), app_nil_r.
  destruct ev as [l | n m | f t | n]; simpl in Hev; try discriminate.
  apply String.eqb_eq in Hev. now rewrite Hev.
Qed.

Lemma page_writes_no_print (tr : list event) :
  forallb is_page_write tr = true -> forallb no_print tr = true.
Proof.
  induction tr as [| ev tr IH]; simpl; [reflexivity |].
  rewrite !andb_true_iff. intros [Hev Htr]. split; [| now apply IH].
  now destruct ev.
Qed.

Lemma no_print_stdout (tr : list event) :
  forallb no_print tr = true -> stdout tr = [].
Proof.
  induction tr as [| ev tr IH]; simpl; [reflexivity |].
  rewrite andb_true_iff. intros [Hev Htr].
  rewrite (IH Htr). now destruct ev.
Qed.

Lemma emit_page_write (f : file) (text : string) :
  String.eqb (mode f) "w" = true ->
  forallb is_page_write (fst (emit (Write f text))) = true.
Proof. intros H. simpl. now rewrite H. Qed.

Lemma write_table_page (V : Type) (fmt : V -> string) (f : file)
      (d : dict V) (k v : string) :
  String.eqb (mode f) "w" = true ->
  forallb is_page_write (fst (write_table fmt f d k v)) = true.
Proof.
  intros Hf. unfold write_table.
  repeat first [ apply forallb_bind; [| intros ? ]
               | apply forallb_for_each; intros ?
               | now apply emit_page_write ].
Qed.

Lemma write_table_ok (V : Type) (fmt : V -> string) (f : file)
      (d : dict V) (k v : string) :
  snd (write_table fmt f d k v) = Ok tt.
Proof.
  unfold write_table.
  repeat (rewrite io_bind_snd; cbn [snd emit]).
  rewrite for_each_ok by reflexivity. reflexivity.
Qed.

Lemma write_none_page (f : file) :
  String.eqb (mode f) "w" = true ->
  forallb is_page_write (fst (write_none f)) = true.
Proof. intros Hf. unfold write_none. simpl. now rewrite Hf. Qed.

Lemma write_body_table_page (f : file) (b : json) :
  String.eqb (mode f) "w" = true ->
  forallb is_page_write (fst (write_body_table rt f b)) = true.
Proof.
  intros Hf. unfold write_body_table.
  destruct (body_items b) as [items | err].
  - now apply write_table_page.
  - repeat first [ now apply emit_page_write
                 | reflexivity
                 | apply forallb_bind; [| intros ? ] ].
Qed.

Lemma write_request_page (f : file) (e : Endpoint.t) :
  String.eqb (mode f) "w" = true ->
  forallb is_page_write (fst (write_request rt f e)) = true.
Proof.
  intros Hf. unfold write_request.
  repeat first [ now apply emit_page_write
               | now apply write_table_page
               | now apply write_none_page
               | now apply write_body_table_page
               | reflexivity
               | match goal with
                 | |- context [if ?c then _ else _] => destruct c
                 end
               | apply forallb_bind; [| intros ? ] ].
Qed.

Lemma write_response_page (f : file) (e : Endpoint.t) :
  String.eqb (mode f) "w" = true ->
  forallb is_page_write (fst (write_response rt f e)) = true.
Proof.
  intros Hf. unfold write_response.
  repeat first [ now apply emit_page_write
               | now apply write_table_page
               | apply forallb_bind; [| intros ? ] ].
Qed.

Lemma write_none_ok (f : file) : snd (write_none f) = Ok tt.
Proof. reflexivity. Qed.

Lemma write_request_ok (f : file) (e : Endpoint.t) (d : dict json) :
  Request.body (Endpoint.request e) = JObject d ->
  snd (write_request rt f e) = Ok tt.
Proof.
  intros Hb. unfold write_request.
  repeat (rewrite io_bind_snd; cbn [snd emit]; rewrite ?write_table_ok).
  match goal with
  | |- context [if ?c then _ else _] =>
      destruct c; rewrite ?write_table_ok, ?write_none_ok
  end.
  all: destruct (String.eqb (Endpoint.method e) "POST"); try reflexivity.
  all: repeat (rewrite io_bind_snd; cbn [snd emit]).
  all: rewrite Hb; cbn [io_lift snd body_len body_items].
  all: destruct (0 <? Z.of_nat (List.length d)); [| apply write_none_ok].
  all: unfold write_body_table; cbn [body_items]; apply write_table_ok.
Qed.

Lemma write_response_ok (f : file) (e : Endpoint.t) :
  snd (write_response rt f e) = Ok tt.
Proof.
  unfold write_response.
  repeat (rewrite io_bind_snd; cbn [snd emit]; rewrite ?write_table_ok).
  reflexivity.
Qed.

End Traces.

Section Pages.
Variable rt : Builtins.

Lemma last_nonempty (s : string) :
  s <> EmptyString -> exists c, Str.last s = Ok c.
Proof.
  induction s as [| a r IH]; intros H; [contradiction |].
  destruct r as [| b r'].
  - now exists a.
  - destruct IH as [c Hc]; [discriminate |]. exists c. exact Hc.
Qed.

Ltac no_print_steps :=
  repeat first
    [ reflexivity
    | apply forallb_for_each; intros ?
    | match goal with
      | |- context [if ?c then _ else _] => destruct c
      end
    | apply forallb_bind; [| intros ? ] ].

(** Whether they complete or not, the functions of the renderer print
    nothing. *)
Lemma write_request_no_print (f : file) (e : Endpoint.t) :
  forallb no_print (fst (write_request rt f e)) = true.
Proof.
  unfold write_request, write_body_table, write_table, write_none.
  destruct (body_items (Request.body (Endpoint.request e)));
    no_print_steps.
Qed.

Lemma write_response_no_print (f : file) (e : Endpoint.t) :
  forallb no_print (fst (write_response rt f e)) = true.
Proof. unfold write_response, write_table. no_print_steps. Qed.

Lemma write_pages_no_print (out_dir : string) (L : list Endpoint.t) (i : Z) :
  forallb no_print (fst (write_pages rt out_dir i L)) = true.
Proof.
  revert i. induction L as [| e rest IH]; intros i; [reflexivity |].
  cbn [write_pages].
  repeat first
    [ apply IH
    | apply write_request_no_print
    | apply write_response_no_print
    | reflexivity
    | apply forallb_bind; [| intros ? ] ].
Qed.

Lemma write_md_no_print (base out_dir : string) (s : pyset) :
  forallb no_print (fst (write_md rt base s out_dir)) = true.
Proof.
  unfold write_md.
  repeat first
    [ apply write_pages_no_print
    | reflexivity
    | apply forallb_bind; [| intros ? ] ].
Qed.

Lemma for_each_print (L : list Endpoint.t) :
  for_each L (fun e => emit (Print (listing e)))
  = (map (fun e => Print (listing e)) L, Ok tt).
Proof.
  induction L as [| e r IH]; simpl for_each; [reflexivity |].
  rewrite IH. reflexivity.
Qed.

Lemma stdout_prints (lines : list string) :
  stdout (map Print lines) = lines.
Proof.
  induction lines as [| l r IH]; simpl; [reflexivity |].
  f_equal. exact IH.
Qed.

Lemma prints_no_output (lines : list string) :
  forallb no_output (map Print lines) = true.
Proof. induction lines as [| l r IH]; simpl; auto. Qed.

Lemma prints_appended (name : string) (lines : list string) :
  appended name (map Print lines) = [].
Proof. induction lines as [| l r IH]; simpl; auto. Qed.

(** The trace of a run with three arguments whose extraction returns. *)
Lemma main_trace (argv : list string) (file : string) (s : pyset) :
  List.length argv = 4%nat ->
  open_read rt (nth 1 argv EmptyString) = Ok file ->
  get_endpoints rt file (nth 2 argv EmptyString) = Ok s ->
  fst (main rt argv) =
  ((Open (nth 1 argv EmptyString) "r"
    :: map Print (map listing (sorted (set_iter rt s))))
   ++ fst (write_md rt (nth 2 argv EmptyString) s (nth 3 argv EmptyString)))%list.
Proof.
  intros Hlen Hopen Hext. unfold main. rewrite Hlen.
  change (negb (Z.of_nat 4 =? 4)) with false. cbv iota.
  repeat (rewrite io_bind_fst; cbn [fst snd emit io_lift];
          rewrite ?Hopen, ?Hext).
  change (fun endpoint : Endpoint.t =>
            emit (Print (Endpoint.method endpoint ++ " "
                         ++ Endpoint.url endpoint)))
    with (fun e => emit (Print (listing e))).
  rewrite for_each_print. cbn [fst snd app].
  now rewrite map_map.
Qed.

(** The body of an endpoint that a set could hash is an object. *)
Lemma hashed_body_object (e : Endpoint.t) (h : Z) :
  endpoint_hash rt e = Ok h ->
  exists d, Request.body (Endpoint.request e) = JObject d.
Proof.
  unfold endpoint_hash, Endpoint.hash_args, Endpoint.body_keys.
  destruct (Request.body (Endpoint.request e)); simpl; try discriminate.
  eauto.
Qed.

Lemma get_endpoints_bodies (file base : string) (s : pyset) :
  get_endpoints rt file base = Ok s ->
  Forall (fun e => exists d, Request.body (Endpoint.request e) = JObject d)
         (elements s).
Proof.
  intros Hrun.
  destruct (json_load rt file) as [data |] eqn:Hload.
  - destruct (get_endpoints_inv rt file base data s Hload Hrun) as [Hh _].
    apply Forall_forall. intros e He.
    apply in_map_iff in He as ([h e'] & <- & Hp).
    rewrite Forall_forall in Hh.
    apply (hashed_body_object e' h (Hh _ Hp)).
  - unfold get_endpoints in Hrun. rewrite Hload in Hrun. discriminate.
Qed.

Lemma main_result (argv : list string) (file : string) (s : pyset) :
  List.length argv = 4%nat ->
  open_read rt (nth 1 argv EmptyString) = Ok file ->
  get_endpoints rt file (nth 2 argv EmptyString) = Ok s ->
  snd (main rt argv) =
  snd (write_md rt (nth 2 argv EmptyString) s (nth 3 argv EmptyString)).
Proof.
  intros Hlen Hopen Hext. unfold main. rewrite Hlen.
  change (negb (Z.of_nat 4 =? 4)) with false. cbv iota.
  repeat (rewrite io_bind_snd; cbn [fst snd emit io_lift];
          rewrite ?Hopen, ?Hext).
  change (fun endpoint : Endpoint.t =>
            emit (Print (Endpoint.method endpoint ++ " "
                         ++ Endpoint.url endpoint)))
    with (fun e => emit (Print (listing e))).
  rewrite for_each_print. reflexivity.
Qed.

Lemma io_bind_ok_inv (A B : Type) (m : io A) (k : A -> io B) (b : B) :
  snd (io_bind m k) = Ok b -> exists a, snd m = Ok a /\ snd (k a) = Ok b.
Proof.
  rewrite io_bind_snd. destruct (snd m) as [a |]; [eauto | discriminate].
Qed.

Lemma io_bind_lift_ok (A B : Type) (a : A) (k : A -> io B) :
  io_bind (io_lift (Ok a)) k = k a.
Proof. unfold io_lift. simpl. now destruct (k a). Qed.

Lemma appended_bind (A B : Type) (name : string) (m : io A)
      (k : A -> io B) :
  appended name (fst (io_bind m k)) =
  (appended name (fst m)
   ++ match snd m with
      | Ok a => appended name (fst (k a))
      | Raise _ => []
      end)%list.
Proof. rewrite io_bind_fst, appended_app. now destruct (snd m). Qed.

Lemma makedirs_ok (name : string) :
  fs_result rt (MakeDirs name) = Ok tt ->
  makedirs rt name = ([MakeDirs name], Ok tt).
Proof. intros H. unfold makedirs. now rewrite H. Qed.

Lemma open_out_ok (name mode : string) :
  fs_result rt (Open name mode) = Ok tt ->
  open_out rt name mode
  = ([Open name mode], Ok {| path := name; mode := mode |}).
Proof. intros H. unfold open_out. now rewrite H. Qed.

Lemma open_out_inv (name mode : string) (f : file) :
  snd (open_out rt name mode) = Ok f ->
  fs_result rt (Open name mode) = Ok tt
  /\ f = {| path := name; mode := mode |}.
Proof.
  unfold open_out. cbn [snd].
  destruct (fs_result rt (Open name mode)) as [[] |]; simpl;
    [| discriminate].
  intros [= <-]. auto.
Qed.

(** One round of the loop of [write_md] in which the file system lets
    the directory be made and the two files be opened, and the request
    is written: the directory, the link appended to the index, the page,
    and then the rounds that remain. *)
Lemma write_pages_cons (out_dir : string) (i : Z) (e : Endpoint.t)
      (rest : list Endpoint.t) :
  fs_result rt (MakeDirs (out_dir ++ Endpoint.url e)) = Ok tt ->
  fs_result rt (Open (out_dir ++ "/index.md") "a") = Ok tt ->
  fs_result rt (Open (page_path out_dir e (i + 1)) "w") = Ok tt ->
  snd (write_request rt {| path := page_path out_dir e (i + 1);
                           mode := "w" |} e) = Ok tt ->
  exists page,
    forallb is_page_write page = true
    /\ fst (write_pages rt out_dir i (e :: rest)) =
       ([MakeDirs (out_dir ++ Endpoint.url e);
         Open (out_dir ++ "/index.md") "a";
         Write {| path := out_dir ++ "/index.md"; mode := "a" |}
               (index_link e (i + 1));
         Open (page_path out_dir e (i + 1)) "w"]
        ++ page ++ fst (write_pages rt out_dir (i + 1) rest))%list
    /\ snd (write_pages rt out_dir i (e :: rest)) =
       snd (write_pages rt out_dir (i + 1) rest).
Proof.
  intros H1 H2 H3 H4.
  set (f := {| path := page_path out_dir e (i + 1); mode := "w" |}) in *.
  exists (Write f ("[Back to index]("
                   ++ Str.repeat "../" (Str.count slash (Endpoint.url e) - 1)
                   ++ "index.html" ++ ")" ++ nl ++ nl)
          :: Write f ("## `" ++ Endpoint.method e ++ " " ++ Endpoint.url e
                      ++ "`" ++ nl ++ nl)
          :: fst (write_request rt f e) ++ fst (write_response rt f e))%list.
  assert (Hunfold :
            write_pages rt out_dir i (e :: rest) =
            (makedirs rt (out_dir ++ Endpoint.url e) >>
             fa <~ open_out rt (out_dir ++ "/index.md") "a" ;;
             emit (Write fa (index_link e (i + 1))) >>
             fp <~ open_out rt (page_path out_dir e (i + 1)) "w" ;;
             emit (Write fp ("[Back to index]("
                             ++ Str.repeat "../"
                                  (Str.count slash (Endpoint.url e) - 1)
                             ++ "index.html" ++ ")" ++ nl ++ nl)) >>
             emit (Write fp ("## `" ++ Endpoint.method e ++ " "
                             ++ Endpoint.url e ++ "`" ++ nl ++ nl)) >>
             write_request rt fp e >>
             write_response rt fp e >>
             write_pages rt out_dir (i + 1) rest))
    by reflexivity.
  rewrite Hunfold, (makedirs_ok _ H1), (open_out_ok _ _ H2),
    (open_out_ok _ _ H3).
  fold f.
  split; [| split].
  - cbn [forallb is_page_write f mode]. rewrite forallb_app.
    now rewrite write_request_page, write_response_page.
  - repeat (rewrite io_bind_fst; cbn [fst snd emit]).
    rewrite H4, write_response_ok.
    cbn [app]. now rewrite <- app_assoc.
  - repeat (rewrite io_bind_snd; cbn [fst snd emit]).
    now rewrite H4, write_response_ok.
Qed.

(** The calls that a round attempts, one after the other. *)
Lemma write_pages_attempts (out_dir : string) (i : Z) (e : Endpoint.t)
      (rest : list Endpoint.t) :
  In (MakeDirs (out_dir ++ Endpoint.url e))
     (fst (write_pages rt out_dir i (e :: rest)))
  /\ (fs_result rt (MakeDirs (out_dir ++ Endpoint.url e)) = Ok tt ->
      In (Open (out_dir ++ "/index.md") "a")
         (fst (write_pages rt out_dir i (e :: rest))))
  /\ (fs_result rt (MakeDirs (out_dir ++ Endpoint.url e)) = Ok tt ->
      fs_result rt (Open (out_dir ++ "/index.md") "a") = Ok tt ->
      In (Open (page_path out_dir e (i + 1)) "w")
         (fst (write_pages rt out_dir i (e :: rest)))).
Proof.
  cbn [write_pages]. split; [| split].
  - rewrite io_bind_fst. apply in_or_app. left. now left.
  - intros H1. rewrite (makedirs_ok _ H1).
    rewrite io_bind_fst. cbn [fst snd]. apply in_or_app. right.
    rewrite io_bind_fst. apply in_or_app. left. now left.
  - intros H1 H2. rewrite (makedirs_ok _ H1), (open_out_ok _ _ H2).
    do 3 (rewrite io_bind_fst; cbn [fst snd emit]; apply in_or_app; right).
    rewrite io_bind_fst. apply in_or_app. left. now left.
Qed.

(** A loop that returns has appended to the index one link per
    endpoint, in the order of the sequence, numbered from [i + 1]. *)
Lemma write_pages_returns (out_dir : string) (L : list Endpoint.t) (i : Z) :
  snd (write_pages rt out_dir i L) = Ok tt ->
  appended (out_dir ++ "/index.md") (fst (write_pages rt out_dir i L))
  = index_links (i + 1) L.
Proof.
  revert i. induction L as [| e rest IH]; intros i Hret; [reflexivity |].
  pose proof Hret as Hinv. cbn [write_pages] in Hinv.
  apply io_bind_ok_inv in Hinv as ([] & Hmk & Hinv).
  apply io_bind_ok_inv in Hinv as (fa & Hoa & Hinv).
  apply open_out_inv in Hoa as [Hoa ->].
  apply io_bind_ok_inv in Hinv as ([] & _ & Hinv).
  apply io_bind_ok_inv in Hinv as (fp & Hop & Hinv).
  apply open_out_inv in Hop as [Hop ->].
  apply io_bind_ok_inv in Hinv as ([] & _ & Hinv).
  apply io_bind_ok_inv in Hinv as ([] & _ & Hinv).
  apply io_bind_ok_inv in Hinv as ([] & Hreq & Hinv).
  apply io_bind_ok_inv in Hinv as ([] & _ & Hrest).
  destruct (write_pages_cons out_dir i e rest Hmk Hoa Hop Hreq)
    as (page & Hpage & Hfst & _).
  rewrite Hfst, !appended_app, (page_writes_appended _ _ Hpage),
    (IH _ Hrest).
  cbn [appended flat_map mode path app index_links enumerate map fst snd].
  rewrite !String.eqb_refl. reflexivity.
Qed.

(** Whether the loop returns or not, what it has appended to the index
    is a beginning of the links of the sequence. *)
Lemma write_pages_prefix (out_dir : string) (L : list Endpoint.t) (i : Z) :
  exists n,
    appended (out_dir ++ "/index.md") (fst (write_pages rt out_dir i L))
    = firstn n (index_links (i + 1) L).
Proof.
  revert i. induction L as [| e rest IH]; intros i; [now exists O |].
  destruct (fs_result rt (MakeDirs (out_dir ++ Endpoint.url e)))
    as [[] | err1] eqn:H1.
  2:{ exists O. cbn [write_pages]. unfold makedirs. rewrite H1.
      reflexivity. }
  destruct (fs_result rt (Open (out_dir ++ "/index.md") "a"))
    as [[] | err2] eqn:H2.
  2:{ exists O. cbn [write_pages].
      rewrite (makedirs_ok _ H1). unfold open_out. rewrite H2.
      reflexivity. }
  destruct (fs_result rt (Open (page_path out_dir e (i + 1)) "w"))
    as [[] | err3] eqn:H3.
  2:{ exists 1%nat. cbn [write_pages].
      rewrite (makedirs_ok _ H1), (open_out_ok _ _ H2).
      change ((out_dir ++ Endpoint.url e) ++ Endpoint.method e ++ "_"
              ++ Str.of_int (i + 1) ++ ".md")%string
        with (page_path out_dir e (i + 1)).
      unfold open_out. rewrite H3.
      cbn [io_bind emit bind app fst appended flat_map mode path].
      rewrite !String.eqb_refl. reflexivity. }
  destruct (snd (write_request rt {| path := page_path out_dir e (i + 1);
                                     mode := "w" |} e))
    as [[] | err4] eqn:H4.
  - destruct (write_pages_cons out_dir i e rest H1 H2 H3 H4)
      as (page & Hpage & Hfst & _).
    destruct (IH (i + 1)) as [n Hn].
    exists (S n).
    rewrite Hfst, !appended_app, (page_writes_appended _ _ Hpage), Hn.
    cbn [appended flat_map mode path app index_links enumerate map fst snd
         firstn].
    rewrite !String.eqb_refl. reflexivity.
  - exists 1%nat. cbn [write_pages].
    rewrite (makedirs_ok _ H1), (open_out_ok _ _ H2).
    change ((out_dir ++ Endpoint.url e) ++ Endpoint.method e ++ "_"
            ++ Str.of_int (i + 1) ++ ".md")%string
      with (page_path out_dir e (i + 1)).
    rewrite (open_out_ok _ _ H3).
    repeat (rewrite appended_bind; cbn [fst snd emit]).
    rewrite H4,
      (page_writes_appended _ _
         (write_request_page rt {| path := page_path out_dir e (i + 1);
                                   mode := "w" |} e eq_refl)).
    cbn [appended flat_map mode path app index_links enumerate map fst snd
         firstn].
    rewrite !String.eqb_refl. reflexivity.
Qed.

(** The loop returns when the bodies are objects and no call to the
    file system fails. *)
Lemma write_pages_complete (out_dir : string) (L : list Endpoint.t) (i : Z) :
  Forall (fun e => exists d, Request.body (Endpoint.request e) = JObject d)
         L ->
  (forall ev, In ev (fst (write_pages rt out_dir i L)) ->
              fs_result rt ev = Ok tt) ->
  snd (write_pages rt out_dir i L) = Ok tt.
Proof.
  intros HL. revert i.
  induction HL as [| e rest [d Hb] _ IH]; intros i Hfs; [reflexivity |].
  destruct (write_pages_attempts out_dir i e rest) as (A1 & A2 & A3).
  pose proof (Hfs _ A1) as H1.
  pose proof (Hfs _ (A2 H1)) as H2.
  pose proof (Hfs _ (A3 H1 H2)) as H3.
  destruct (write_pages_cons out_dir i e rest H1 H2 H3
              (write_request_ok rt _ e d Hb))
    as (page & _ & Hfst & Hsnd).
  rewrite Hsnd. apply IH. intros ev Hev. apply Hfs. rewrite Hfst.
  apply in_or_app. right. apply in_or_app. now right.
Qed.

Lemma write_md_named (base out_dir : string) (s : pyset) (c : ascii) :
  Str.last out_dir = Ok c ->
  write_md rt base s out_dir =
  (makedirs rt (if Ascii.eqb c slash then Str.slice_to out_dir (-1)
                else out_dir) >>
   f <~ open_out rt ((if Ascii.eqb c slash then Str.slice_to out_dir (-1)
                      else out_dir) ++ "/index.md") "w" ;;
   emit (Write f ("## `" ++ base ++ "`" ++ nl ++ nl)) >>
   write_pages rt (if Ascii.eqb c slash then Str.slice_to out_dir (-1)
                   else out_dir)
               (-1) (sorted (set_iter rt s))).
Proof.
  intros Hc. unfold write_md. rewrite Hc, io_bind_lift_ok. reflexivity.
Qed.

Lemma write_md_unnamed_raises (base out_dir : string) (s : pyset)
      (err : exn) :
  Str.last out_dir = Raise err ->
  write_md rt base s out_dir = ([], Raise err).
Proof. intros Hc. unfold write_md. rewrite Hc. reflexivity. Qed.

(** A [write_md] that returns has appended to the index the links of
    the sorted sequence, numbered from [0]. *)
Lemma write_md_returns (base out_dir : string) (s : pyset) :
  snd (write_md rt base s out_dir) = Ok tt ->
  appended (index_md out_dir) (fst (write_md rt base s out_dir))
  = index_links 0 (sorted (set_iter rt s)).
Proof.
  intros Hret. unfold index_md.
  destruct (Str.last out_dir) as [c | err] eqn:Hc.
  - rewrite (write_md_named base out_dir s c Hc) in *.
    set (dir := if Ascii.eqb c slash then Str.slice_to out_dir (-1)
                else out_dir) in *.
    clearbody dir.
    apply io_bind_ok_inv in Hret as ([] & Hmk & Hret).
    apply io_bind_ok_inv in Hret as (fw & How & Hret).
    apply open_out_inv in How as [How ->].
    apply io_bind_ok_inv in Hret as ([] & _ & Hpages).
    rewrite (makedirs_ok _ Hmk), (open_out_ok _ _ How).
    repeat (rewrite appended_bind; cbn [fst snd emit]).
    rewrite (write_pages_returns dir _ (-1) Hpages).
    reflexivity.
  - rewrite (write_md_unnamed_raises base out_dir s err Hc) in Hret.
    discriminate.
Qed.

(** Whether [write_md] returns or not, what it has appended to the
    index is a beginning of the links of the sorted sequence. *)
Lemma write_md_prefix (base out_dir : string) (s : pyset) :
  exists n,
    appended (index_md out_dir) (fst (write_md rt base s out_dir))
    = firstn n (index_links 0 (sorted (set_iter rt s))).
Proof.
  unfold index_md.
  destruct (Str.last out_dir) as [c | err] eqn:Hc.
  - rewrite (write_md_named base out_dir s c Hc).
    set (dir := if Ascii.eqb c slash then Str.slice_to out_dir (-1)
                else out_dir).
    clearbody dir.
    destruct (fs_result rt (MakeDirs dir)) as [[] | e1] eqn:H1.
    2:{ exists O. unfold makedirs. rewrite H1. reflexivity. }
    destruct (fs_result rt (Open (dir ++ "/index.md") "w"))
      as [[] | e2] eqn:H2.
    2:{ exists O. rewrite (makedirs_ok _ H1). unfold open_out.
        rewrite H2. reflexivity. }
    destruct (write_pages_prefix dir (sorted (set_iter rt s)) (-1))
      as [n Hn].
    exists n.
    rewrite (makedirs_ok _ H1), (open_out_ok _ _ H2).
    repeat (rewrite appended_bind; cbn [fst snd emit]).
    rewrite Hn. reflexivity.
  - exists O. now rewrite (write_md_unnamed_raises base out_dir s err Hc).
Qed.

(** [write_md] returns when the directory is named, the bodies are
    objects and no call to the file system fails. *)
Lemma write_md_complete (base out_dir : string) (s : pyset) :
  out_dir <> EmptyString ->
  Forall (fun e => exists d, Request.body (Endpoint.request e) = JObject d)
         (sorted (set_iter rt s)) ->
  (forall ev, In ev (fst (write_md rt base s out_dir)) ->
              fs_result rt ev = Ok tt) ->
  snd (write_md rt base s out_dir) = Ok tt.
Proof.
  intros Hne HL. destruct (last_nonempty out_dir Hne) as [c Hc].
  rewrite (write_md_named base out_dir s c Hc).
  set (dir := if Ascii.eqb c slash then Str.slice_to out_dir (-1)
              else out_dir).
  clearbody dir. intros Hfs.
  assert (H1 : fs_result rt (MakeDirs dir) = Ok tt).
  { apply Hfs. rewrite io_bind_fst. apply in_or_app. left. now left. }
  rewrite (makedirs_ok _ H1) in *.
  assert (H2 : fs_result rt (Open (dir ++ "/index.md") "w") = Ok tt).
  { apply Hfs. rewrite io_bind_fst. cbn [fst snd]. apply in_or_app. right.
    rewrite io_bind_fst. apply in_or_app. left. now left. }
  rewrite (open_out_ok _ _ H2) in *.
  repeat (rewrite io_bind_snd; cbn [fst snd emit]).
  apply write_pages_complete; [exact HL |].
  intros ev Hev. apply Hfs.
  repeat (rewrite io_bind_fst; cbn [fst snd emit]).
  apply in_or_app. right. apply in_or_app. right.
  apply in_or_app. now right.
Qed.

Lemma main_appended (argv : list string) (file name : string) (s : pyset) :
  List.length argv = 4%nat ->
  open_read rt (nth 1 argv EmptyString) = Ok file ->
  get_endpoints rt file (nth 2 argv EmptyString) = Ok s ->
  appended name (fst (main rt argv)) =
  appended name
    (fst (write_md rt (nth 2 argv EmptyString) s (nth 3 argv EmptyString))).
Proof.
  intros Hlen Hopen Hext.
  rewrite (main_trace argv file s Hlen Hopen Hext), appended_app.
  change (appended name
            (Open (nth 1 argv EmptyString) "r"
             :: map Print (map listing (sorted (set_iter rt s)))))
    with (appended name (map Print (map listing (sorted (set_iter rt s))))).
  now rewrite prints_appended.
Qed.

End Pages.

(** C7. In a run with three arguments whose extraction returns, the
    listing on standard output is that of the sorted sequence of the
    endpoints, which does not decrease under the lexicographic order of
    [(method, url)]; the trace splits into a part that holds the whole
    listing and touches no output file, and a part that prints nothing;
    the links appended to the index are a beginning of the links of the
    same sequence, in the same order, wherever the run stops; and they
    are all of them when the run returns. *)
Theorem listing_and_index_sorted (rt : Builtins) (argv : list string)
        (file : string) (s : pyset) :
  List.length argv = 4%nat ->
  open_read rt (nth 1 argv EmptyString) = Ok file ->
  get_endpoints rt file (nth 2 argv EmptyString) = Ok s ->
  let L := sorted (set_iter rt s) in
  let tr := fst (main rt argv) in
  Sorted key_le L
  /\ stdout tr = map listing L
  /\ (exists pre post,
         tr = (pre ++ post)%list
         /\ stdout pre = map listing L
         /\ forallb no_output pre = true
         /\ forallb no_print post = true)
  /\ (exists n,
         appended (index_md (nth 3 argv EmptyString)) tr
         = firstn n (index_links 0 L))
  /\ (snd (main rt argv) = Ok tt ->
      appended (index_md (nth 3 argv EmptyString)) tr = index_links 0 L).
Proof.
  intros Hlen Hopen Hext L tr.
  pose proof (main_trace rt argv file s Hlen Hopen Hext) as Htr.
  pose proof (write_md_no_print rt (nth 2 argv EmptyString)
                                (nth 3 argv EmptyString) s) as Hnp.
  fold L in Htr. fold tr in Htr.
  split; [apply sorted_Sorted |].
  split; [| split; [| split]].
  - rewrite Htr, stdout_app, (no_print_stdout _ Hnp), app_nil_r.
    apply (stdout_prints (map listing L)).
  - eexists _, _. split; [exact Htr |]. split; [| split].
    + apply (stdout_prints (map listing L)).
    + cbn [forallb]. now rewrite prints_no_output.
    + exact Hnp.
  - unfold tr.
    rewrite (main_appended rt argv file _ s Hlen Hopen Hext).
    apply write_md_prefix.
  - intros Hret. unfold tr.
    rewrite (main_appended rt argv file _ s Hlen Hopen Hext).
    apply write_md_returns.
    now rewrite <- (main_result rt argv file s Hlen Hopen Hext).
Qed.

(** C8. A run whose argument vector does not hold the program name and
    three arguments prints the usage message and exits with status [1]:
    it opens no file, extracts nothing and writes nothing. *)
Theorem usage_on_wrong_argument_count (rt : Builtins) (argv : list string) :
  List.length argv <> 4%nat ->
  main rt argv = ([Print usage], Raise (SystemExit 1))
  /\ exit_status (snd (main rt argv)) <> 0.
Proof.
  intros Hlen.
  assert (H : main rt argv = ([Print usage], Raise (SystemExit 1))).
  { unfold main.
    destruct (Z.eqb_spec (Z.of_nat (List.length argv)) 4) as [E | _].
    - exfalso. apply Hlen. lia.
    - reflexivity. }
  rewrite H. split; [reflexivity | discriminate].
Qed.

(** ** The properties on a concrete run *)

Lemma get_url_idempotent_witness :
  get_url Demo.normalised 0 = Ok "/users/"
  /\ (get_url (Har.e_request Demo.users_ab) (Str.len Demo.base)
      = Ok "/users/"
      /\ get_url Demo.normalised 0 = Ok "/users/").
Proof.
  split.
  - apply (proj1 (get_url_idempotent Demo.normalised)); reflexivity.
  - split; [reflexivity |].
    apply (proj2 (get_url_idempotent (Har.e_request Demo.users_ab))
                 (Str.len Demo.base) "/users/" Demo.normalised);
      reflexivity.
Defined.

Lemma get_params_tokens_witness :
  dict_get (get_params Demo.flagged) "flag" = Some EmptyString
  /\ dict_get (get_params Demo.flagged) "q" = Some "2".
Proof.
  split.
  - apply (proj1 (get_params_tokens Demo.flagged ["q=1"] ["q=2"] "flag"
                    ltac:(vm_compute; discriminate) eq_refl
                    ltac:(intros pv' [<- | []]; vm_compute; discriminate))).
    reflexivity.
  - apply (proj2 (get_params_tokens Demo.flagged ["q=1"; "flag"] [] "q=2"
                    ltac:(vm_compute; discriminate) eq_refl
                    ltac:(intros pv' [])) "q" "2").
    reflexivity.
Defined.

Lemma get_params_many_equals_witness :
  param_of "k=v1=v2" = ("k", EmptyString)
  /\ dict_get (get_params Demo.doubled) "k" = Some EmptyString.
Proof.
  apply (get_params_many_equals Demo.doubled [] ["z=1"] "k=v1=v2").
  - vm_compute. discriminate.
  - reflexivity.
  - intros pv' [<- | []]. vm_compute. discriminate.
  - vm_compute. discriminate.
Defined.

Lemma accepted_entries_only_witness :
  (exists x,
      In x (Har.entries (Har.har_log Demo.capture))
      /\ Har.req_method (Har.e_request x) <> "OPTIONS"
      /\ Str.startswith (Har.req_url (Har.e_request x)) Demo.base = true
      /\ make_endpoint (Demo.builtins Demo.capture) (Str.len Demo.base) x
         = Ok Demo.endpoint_ab)
  /\ get_endpoints (Demo.builtins Demo.capture) "capture.har" Demo.base
     = extract_loop (Demo.builtins Demo.capture) Demo.base
                    (Str.len Demo.base)
                    [Demo.users_ab; Demo.elsewhere; Demo.users_ba;
                     Demo.users_ab'; Demo.items] [].
Proof.
  destruct (accepted_entries_only (Demo.builtins Demo.capture) "capture.har"
              Demo.base Demo.capture eq_refl) as [Hfrom Hdrop].
  split.
  - apply (Hfrom Demo.capture_endpoints Demo.endpoint_ab).
    + vm_compute. reflexivity.
    + vm_compute. left. reflexivity.
  - apply (Hdrop [] Demo.preflight
                 [Demo.users_ab; Demo.elsewhere; Demo.users_ba;
                  Demo.users_ab'; Demo.items]).
    + reflexivity.
    + left. reflexivity.
Defined.

Lemma missing_text_is_empty_malformed_raises_witness :
  get_body (Demo.builtins Demo.broken_capture)
           (Har.e_request Demo.users_ab) = Ok (JObject [])
  /\ get_body (Demo.builtins Demo.broken_capture)
              (Har.e_request Demo.broken_body) = Raise JSONDecodeError
  /\ exists err,
      get_endpoints (Demo.builtins Demo.broken_capture) "capture.har"
                    Demo.base = Raise err
      /\ main (Demo.builtins Demo.broken_capture) Demo.argv
         = ([Open "capture.har" "r"], Raise err).
Proof.
  destruct (missing_text_is_empty_malformed_raises
              (Demo.builtins Demo.broken_capture) Demo.users_ab)
    as (Hmissing & _).
  destruct (missing_text_is_empty_malformed_raises
              (Demo.builtins Demo.broken_capture) Demo.broken_body)
    as (_ & _ & Hbody & _ & Hrun).
  split; [apply Hmissing; reflexivity |].
  split; [apply (Hbody "{name:"); reflexivity |].
  apply (Hrun "{name:" Demo.argv "capture.har" Demo.broken_capture).
  - left. reflexivity.
  - reflexivity.
  - reflexivity.
  - reflexivity.
  - reflexivity.
  - simpl. right. left. reflexivity.
  - reflexivity.
Defined.

Lemma get_url_of_base_raises_witness :
  get_url (Har.e_request Demo.bare_base) (Str.len Demo.base)
  = Raise IndexError
  /\ exists err,
      get_endpoints (Demo.builtins Demo.bare_capture) "capture.har"
                    Demo.base = Raise err.
Proof.
  destruct (get_url_of_base_raises (Demo.builtins Demo.bare_capture)
              Demo.base "?page=2" (Har.e_request Demo.bare_base) eq_refl)
    as [Hurl Hrun].
  - right. exists "page=2". reflexivity.
  - split; [exact Hurl |].
    apply (Hrun "capture.har" Demo.bare_capture Demo.bare_base).
    + reflexivity.
    + simpl. right. left. reflexivity.
    + reflexivity.
    + discriminate.
Defined.


Lemma first_encountered_retained_witness :
  (exists l1 x l2,
      Har.entries (Har.har_log Demo.capture) = (l1 ++ x :: l2)%list
      /\ accepted Demo.base x = true
      /\ make_endpoint (Demo.builtins Demo.capture) (Str.len Demo.base) x
         = Ok Demo.endpoint_ab
      /\ forall y ey,
          In y l1 -> accepted Demo.base y = true ->
          make_endpoint (Demo.builtins Demo.capture) (Str.len Demo.base) y
          = Ok ey ->
          structural_key ey <> structural_key Demo.endpoint_ab)
  /\ (forall e', In e' (elements Demo.capture_endpoints) ->
                 structural_key e' = structural_key Demo.endpoint_ab ->
                 e' = Demo.endpoint_ab).
Proof.
  apply (first_encountered_retained (Demo.builtins Demo.capture)
           "capture.har" Demo.base Demo.capture Demo.capture_endpoints).
  - reflexivity.
  - vm_compute. reflexivity.
  - vm_compute. left. reflexivity.
Defined.

Lemma listing_and_index_sorted_witness :
  stdout (fst (main (Demo.builtins Demo.capture) Demo.argv))
  = ["GET /items/"; "GET /users/"; "GET /users/"]
  /\ appended "out/index.md"
              (fst (main (Demo.builtins Demo.capture) Demo.argv))
     = index_links 0 (sorted (elements Demo.capture_endpoints))
  /\ Sorted key_le (sorted (elements Demo.capture_endpoints)).
Proof.
  destruct (listing_and_index_sorted (Demo.builtins Demo.capture) Demo.argv
              "capture.har" Demo.capture_endpoints)
    as (Hs & Hout & _ & _ & Hidx).
  - reflexivity.
  - reflexivity.
  - vm_compute. reflexivity.
  - split; [rewrite Hout; vm_compute; reflexivity |].
    split; [| exact Hs].
    apply Hidx. vm_compute. reflexivity.
Defined.

Lemma usage_on_wrong_argument_count_witness :
  main (Demo.builtins Demo.capture) ["crawl.py"; "capture.har"]
  = ([Print usage], Raise (SystemExit 1)).
Proof.
  apply (proj1 (usage_on_wrong_argument_count (Demo.builtins Demo.capture)
                  ["crawl.py"; "capture.har"] ltac:(discriminate))).
Defined.

(** * Further properties *)

(** ** Mappings built by repeated assignment *)

Section Assignments.
Variables (A V : Type) (key : A -> string) (val : A -> V).

Lemma dict_set_keys (d : dict V) (k : string) (v : V) :
  keys (dict_set d k v) =
  if existsb (String.eqb k) (keys d) then keys d else (keys d ++ [k])%list.
Proof.
  induction d as [| [k' v'] r IH]; simpl; [reflexivity |].
  rewrite (String.eqb_sym k k').
  destruct (String.eqb k' k) eqn:E; simpl; [reflexivity |].
  fold (keys (dict_set r k v)). fold (keys r). rewrite IH.
  now destruct (existsb (String.eqb k) (keys r)).
Qed.

Lemma existsb_eqb_In (k : string) (l : list string) :
  existsb (String.eqb k) l = true <-> In k l.
Proof.
  rewrite existsb_exists. split.
  - intros (x & Hx & E). apply String.eqb_eq in E. now subst.
  - intros H. exists k. split; [exact H | apply String.eqb_refl].
Qed.

Lemma fold_keys (xs : list A) (d0 : dict V) :
  keys (fold_left (fun d x => dict_set d (key x) (val x)) xs d0) =
  fold_left (fun seen k =>
               if existsb (String.eqb k) seen then seen
               else (seen ++ [k])%list)
            (map key xs) (keys d0).
Proof.
  revert d0. induction xs as [| x r IH]; intros d0; simpl; [reflexivity |].
  now rewrite IH, dict_set_keys.
Qed.

Lemma seen_NoDup (names seen : list string) :
  NoDup seen ->
  NoDup (fold_left (fun seen k =>
                      if existsb (String.eqb k) seen then seen
                      else (seen ++ [k])%list)
                   names seen).
Proof.
  revert seen. induction names as [| k r IH]; intros seen Hs; simpl;
    [exact Hs |].
  apply IH. destruct (existsb (String.eqb k) seen) eqn:E; [exact Hs |].
  apply NoDup_app; [exact Hs | repeat constructor; intros [] |].
  intros x Hx [<- | []].
  apply existsb_eqb_In in Hx. congruence.
Qed.

Lemma seen_In (names seen : list string) (k : string) :
  In k (fold_left (fun seen k =>
                     if existsb (String.eqb k) seen then seen
                     else (seen ++ [k])%list)
                  names seen)
  <-> In k seen \/ In k names.
Proof.
  revert seen. induction names as [| n r IH]; intros seen; simpl;
    [tauto |].
  rewrite IH. destruct (existsb (String.eqb n) seen) eqn:E.
  - apply existsb_eqb_In in E. split; [tauto |].
    intros [H | [<- | H]]; auto.
  - rewrite in_app_iff. simpl. tauto.
Qed.

Lemma fold_get_other (xs : list A) (d0 : dict V) (k : string) :
  (forall x, In x xs -> key x <> k) ->
  dict_get (fold_left (fun d x => dict_set d (key x) (val x)) xs d0) k
  = dict_get d0 k.
Proof.
  revert d0. induction xs as [| x r IH]; intros d0 H; simpl;
    [reflexivity |].
  rewrite IH by (intros; apply H; now right).
  apply dict_get_set_other. intros E. apply (H x); [now left | now symmetry].
Qed.

Lemma fold_get_last (l1 l2 : list A) (x : A) (d0 : dict V) :
  (forall y, In y l2 -> key y <> key x) ->
  dict_get (fold_left (fun d x => dict_set d (key x) (val x))
                      (l1 ++ x :: l2) d0) (key x)
  = Some (val x).
Proof.
  intros H. rewrite fold_left_app. simpl.
  rewrite fold_get_other by exact H.
  apply dict_get_set_same.
Qed.

End Assignments.

Lemma get_headers_fold (hs : list Har.header) :
  get_headers hs =
  fold_left (fun d h => dict_set d (Har.name h) (Har.value h)) hs [].
Proof. reflexivity. Qed.

Lemma assign_fold (toks : list string) (d0 : dict string) :
  fold_left assign toks d0 =
  fold_left (fun d pv => dict_set d (param_name pv) (snd (param_of pv)))
            toks d0.
Proof.
  revert d0. induction toks as [| pv r IH]; intros d0; simpl;
    [reflexivity |].
  rewrite IH. f_equal. unfold assign.
  rewrite <- SplitFacts.param_of_name. now destruct (param_of pv).
Qed.

Lemma get_params_fold (req : Har.request) :
  Str.find question (Har.req_url req) <> -1 ->
  get_params req =
  fold_left (fun d pv => dict_set d (param_name pv) (snd (param_of pv)))
            (query_tokens (Har.req_url req)) [].
Proof.
  intros Hq. unfold get_params, query_tokens.
  destruct (Z.eqb_spec (Str.find question (Har.req_url req)) (-1));
    [contradiction |].
  apply assign_fold.
Qed.

Lemma get_headers_keys (hs : list Har.header) :
  keys (get_headers hs) = first_seen (map Har.name hs).
Proof. rewrite get_headers_fold, fold_keys. reflexivity. Qed.

Lemma get_params_keys (req : Har.request) :
  Str.find question (Har.req_url req) <> -1 ->
  keys (get_params req)
  = first_seen (map param_name (query_tokens (Har.req_url req))).
Proof. intros Hq. rewrite (get_params_fold req Hq), fold_keys. reflexivity. Qed.

Lemma first_seen_NoDup (names : list string) : NoDup (first_seen names).
Proof. apply seen_NoDup. constructor. Qed.

Lemma get_headers_NoDup (hs : list Har.header) :
  NoDup (keys (get_headers hs)).
Proof. rewrite get_headers_keys. apply first_seen_NoDup. Qed.

Lemma get_params_NoDup (req : Har.request) :
  NoDup (keys (get_params req)).
Proof.
  destruct (Z.eq_dec (Str.find question (Har.req_url req)) (-1)) as [E | NE].
  - unfold get_params. rewrite E. constructor.
  - rewrite (get_params_keys req NE). apply first_seen_NoDup.
Qed.

(** X1. In the mapping that [get_headers] builds, a name has the value
    of the last header of the array that bears it; a name that no header
    bears has none. *)
Theorem get_headers_last_wins (hs : list Har.header) :
  (forall l1 h l2,
      hs = (l1 ++ h :: l2)%list ->
      (forall h', In h' l2 -> Har.name h' <> Har.name h) ->
      dict_get (get_headers hs) (Har.name h) = Some (Har.value h))
  /\ (forall k,
         (forall h, In h hs -> Har.name h <> k) ->
         dict_get (get_headers hs) k = None).
Proof.
  rewrite get_headers_fold. split.
  - intros l1 h l2 -> Hlast. now apply fold_get_last.
  - intros k Hk. now rewrite fold_get_other.
Qed.

(** X2. The names of the mapping that [get_headers] builds are pairwise
    distinct: they are the names of the headers, each at the place where
    it occurs first. *)
Theorem get_headers_names (hs : list Har.header) :
  NoDup (keys (get_headers hs))
  /\ keys (get_headers hs) = first_seen (map Har.name hs).
Proof. split; [apply get_headers_NoDup | apply get_headers_keys]. Qed.

(** X3. For a URL that holds a [?], the names of the mapping that
    [get_params] builds are pairwise distinct: they are the names that
    the tokens of the query string yield, each at the place where it is
    yielded first. *)
Theorem get_params_names (req : Har.request) :
  Str.find question (Har.req_url req) <> -1 ->
  NoDup (keys (get_params req))
  /\ keys (get_params req)
     = first_seen (map param_name (query_tokens (Har.req_url req))).
Proof.
  intros Hq. split; [apply get_params_NoDup | now apply get_params_keys].
Qed.

(** X4. [get_params] returns the empty mapping exactly for a URL without
    [?]: a URL with a [?] always yields a parameter, were it the empty
    name of an empty query string. *)
Theorem get_params_empty_iff (req : Har.request) :
  get_params req = [] <-> Str.find question (Har.req_url req) = -1.
Proof.
  split.
  - intros Hempty.
    destruct (Z.eq_dec (Str.find question (Har.req_url req)) (-1)) as [E | NE];
      [exact E | exfalso].
    pose proof (get_params_keys req NE) as Hkeys.
    rewrite Hempty in Hkeys. simpl in Hkeys.
    pose proof (SplitFacts.split_nonempty ampersand
                  (Str.slice_from (Har.req_url req)
                     (Str.find question (Har.req_url req) + 1))) as Hne.
    unfold query_tokens in Hkeys.
    destruct (Str.split ampersand _) as [| pv r]; [contradiction |].
    assert (Hin : In (param_name pv) (first_seen (map param_name (pv :: r)))).
    { unfold first_seen. apply seen_In. right. now left. }
    rewrite <- Hkeys in Hin. destruct Hin.
  - intros E. unfold get_params. now rewrite E.
Qed.

(** ** More on URL normalisation *)

Section GetUrlMore.
Import StrFacts.

Lemma last_raises (s : string) (e : exn) :
  Str.last s = Raise e -> s = EmptyString /\ e = IndexError.
Proof.
  induction s as [| a r IH]; simpl.
  - intros [= <-]. auto.
  - destruct r as [| b r']; [discriminate |].
    intros H. destruct (IH H) as [Hr _]. discriminate.
Qed.

Lemma find_zero (c : ascii) (s : string) :
  Str.find c s = 0 -> exists r, s = String c r.
Proof.
  destruct s as [| a r]; simpl; [discriminate |].
  destruct (Ascii.eqb a c) eqn:E.
  - apply Ascii.eqb_eq in E. subst. eauto.
  - destruct (Z.eqb_spec (Str.find c r) (-1)); [discriminate |].
    pose proof (find_bounds c r n). lia.
Qed.

Lemma take_empty (n : nat) (s : string) :
  Str.take n s = EmptyString -> n = O \/ s = EmptyString.
Proof. destruct n, s; simpl; auto; discriminate. Qed.

Lemma find_append_sep (c : ascii) (p q : string) :
  Str.find c p = -1 ->
  Str.find c (p ++ String c q) = Str.len p.
Proof.
  unfold Str.len. induction p as [| a p IH]; simpl; intros H.
  - now rewrite Ascii.eqb_refl.
  - destruct (Ascii.eqb a c); [discriminate |].
    destruct (Z.eqb_spec (Str.find c p) (-1)) as [E | NE].
    + rewrite (IH E).
      destruct (Z.eqb_spec (Z.of_nat (String.length p)) (-1)); lia.
    + pose proof (find_bounds c p NE). lia.
Qed.

Lemma take_append (p q : string) :
  Str.take (String.length p) (p ++ q) = p.
Proof. induction p as [| a p IH]; simpl; [now destruct q | now rewrite IH]. Qed.

Lemma drop_append_le (n : nat) (p q : string) :
  (n <= String.length p)%nat ->
  Str.drop n (p ++ q) = (Str.drop n p ++ q)%string.
Proof.
  revert p. induction n as [| n IH]; intros p Hn; [reflexivity |].
  destruct p as [| a p]; simpl in *; [lia |].
  apply IH. lia.
Qed.

Lemma find_drop (c : ascii) (n : nat) (p : string) :
  Str.find c p = -1 -> Str.find c (Str.drop n p) = -1.
Proof.
  revert p. induction n as [| n IH]; intros p H; [exact H |].
  destruct p as [| a p]; simpl in *; [reflexivity |].
  destruct (Ascii.eqb a c); [discriminate |].
  destruct (Z.eqb_spec (Str.find c p) (-1)) as [E | NE]; [now apply IH |].
  pose proof (find_bounds c p NE). lia.
Qed.

End GetUrlMore.

(** X5. The query string has no part in the normalised URL: a URL
    without [?] and the same URL followed by [?] and anything are
    normalised alike, whenever [start] lies within the URL. *)
Theorem get_url_ignores_query (r1 r2 : Har.request) (q : string)
        (start : Z) :
  Str.find question (Har.req_url r1) = -1 ->
  Har.req_url r2 = (Har.req_url r1 ++ String question q)%string ->
  0 <= start <= Str.len (Har.req_url r1) ->
  get_url r2 start = get_url r1 start.
Proof.
  intros Hq Hr2 Hstart. unfold get_url. rewrite Hr2.
  set (u := Har.req_url r1) in *.
  assert (Hs1 : Str.slice_from u start = Str.drop (Z.to_nat start) u).
  { unfold Str.slice_from. now rewrite StrFacts.clip_inside. }
  assert (Hs2 : Str.slice_from (u ++ String question q) start
                = (Str.drop (Z.to_nat start) u ++ String question q)%string).
  { unfold Str.slice_from. rewrite StrFacts.clip_inside.
    - apply drop_append_le. unfold Str.len in Hstart. lia.
    - unfold Str.len in *. rewrite StrFacts.length_append. simpl. lia. }
  rewrite Hs1, Hs2.
  set (p := Str.drop (Z.to_nat start) u).
  assert (Hp : Str.find question p = -1) by now apply find_drop.
  rewrite (find_append_sep question p q Hp), Hp.
  pose proof (StrFacts.len_nonneg p) as Hlen.
  destruct (Z.eqb_spec (Str.len p) (-1)) as [E | _]; [lia |].
  simpl negb. cbv iota.
  unfold Str.slice_to. rewrite StrFacts.clip_inside.
  - unfold Str.len. rewrite Nat2Z.id, take_append. reflexivity.
  - unfold Str.len. rewrite StrFacts.length_append. simpl. lia.
Qed.

(** X6. [get_url] fails with [IndexError] and with nothing else, and
    exactly when the URL from [start] on is empty or begins with
    [?]. *)
Theorem get_url_raises_iff (req : Har.request) (start : Z) :
  let rest := Str.slice_from (Har.req_url req) start in
  (get_url req start = Raise IndexError
   <-> rest = EmptyString \/ exists q, rest = String question q)
  /\ (forall e, get_url req start = Raise e -> e = IndexError).
Proof.
  intros rest. unfold get_url. fold rest.
  set (path := if negb (Str.find question rest =? -1)
               then Str.slice_to rest (Str.find question rest) else rest).
  assert (Hpath : path = EmptyString
                  <-> rest = EmptyString \/ exists q, rest = String question q).
  { unfold path.
    destruct (Z.eqb_spec (Str.find question rest) (-1)) as [E | NE]; simpl.
    - split; [auto |]. intros [H | [q H]]; [exact H |].
      rewrite H in E. simpl in E. discriminate.
    - pose proof (StrFacts.find_bounds question rest NE) as Hb.
      unfold Str.slice_to. rewrite StrFacts.clip_inside by lia. split.
      + intros H. apply take_empty in H as [H | H]; [| now left].
        right. apply find_zero. lia.
      + intros [-> | [q ->]]; [now destruct (Z.to_nat _) | reflexivity]. }
  assert (Hraise : forall e,
             (c <- Str.last path ;;
              if negb (Ascii.eqb c slash) then Ok (path ++ "/")%string
              else Ok path) = Raise e ->
             path = EmptyString /\ e = IndexError).
  { intros e. destruct (Str.last path) as [c | e'] eqn:Hl; simpl.
    - destruct (negb (Ascii.eqb c slash)); discriminate.
    - intros [= <-]. now apply last_raises. }
  split.
  - rewrite <- Hpath. split.
    + intros H. now apply Hraise in H.
    + intros ->. reflexivity.
  - intros e H. now apply Hraise in H.
Qed.

(** ** The order of endpoints *)

Section Order.

Lemma ascii_compare_refl (a : ascii) : Ascii.compare a a = Eq.
Proof. unfold Ascii.compare. apply N.compare_refl. Qed.

Lemma ascii_compare_lt_trans (a b c : ascii) :
  Ascii.compare a b = Lt -> Ascii.compare b c = Lt ->
  Ascii.compare a c = Lt.
Proof.
  unfold Ascii.compare. rewrite !N.compare_lt_iff. apply N.lt_trans.
Qed.

Lemma string_compare_refl (s : string) : String.compare s s = Eq.
Proof.
  induction s as [| a r IH]; simpl; [reflexivity |].
  now rewrite ascii_compare_refl.
Qed.

Lemma string_compare_lt_trans (a b c : string) :
  String.compare a b = Lt -> String.compare b c = Lt ->
  String.compare a c = Lt.
Proof.
  revert b c. induction a as [| x a IH]; intros [| y b] [| z c]; simpl;
    try discriminate; auto.
  destruct (Ascii.compare x y) eqn:Exy; try discriminate;
    destruct (Ascii.compare y z) eqn:Eyz; try discriminate.
  - apply Ascii.compare_eq_iff in Exy, Eyz. subst.
    rewrite ascii_compare_refl. apply IH.
  - apply Ascii.compare_eq_iff in Exy. subst. now rewrite Eyz.
  - apply Ascii.compare_eq_iff in Eyz. subst. now rewrite Exy.
  - now rewrite (ascii_compare_lt_trans x y z Exy Eyz).
Qed.

Lemma ltb_irrefl (a : Endpoint.t) : Endpoint.ltb a a = false.
Proof.
  unfold Endpoint.ltb, Str.ltb. now rewrite !string_compare_refl.
Qed.

Lemma ltb_trans (a b c : Endpoint.t) :
  Endpoint.ltb a b = true -> Endpoint.ltb b c = true ->
  Endpoint.ltb a c = true.
Proof.
  unfold Endpoint.ltb, Str.ltb.
  destruct (String.compare (Endpoint.method a) (Endpoint.method b)) eqn:Eab;
    try discriminate;
    destruct (String.compare (Endpoint.method b) (Endpoint.method c)) eqn:Ebc;
    try discriminate.
  - apply String.compare_eq_iff in Eab, Ebc. rewrite Eab, Ebc.
    rewrite string_compare_refl.
    destruct (String.compare (Endpoint.url a) (Endpoint.url b)) eqn:Uab;
      try discriminate;
      destruct (String.compare (Endpoint.url b) (Endpoint.url c)) eqn:Ubc;
      try discriminate.
    now rewrite (string_compare_lt_trans _ _ _ Uab Ubc).
  - apply String.compare_eq_iff in Eab. rewrite Eab, Ebc. reflexivity.
  - apply String.compare_eq_iff in Ebc. rewrite <- Ebc, Eab. reflexivity.
  - now rewrite (string_compare_lt_trans _ _ _ Eab Ebc).
Qed.

Lemma eqb_not_ltb (a b : Endpoint.t) :
  Endpoint.eqb a b = true -> Endpoint.ltb a b = false.
Proof.
  unfold Endpoint.eqb, Endpoint.ltb, Str.ltb.
  rewrite andb_true_iff, !String.eqb_eq. intros [-> ->].
  now rewrite !string_compare_refl.
Qed.

Lemma incomparable_eqb (a b : Endpoint.t) :
  Endpoint.ltb a b = false -> Endpoint.ltb b a = false ->
  Endpoint.eqb a b = true.
Proof.
  unfold Endpoint.eqb, Endpoint.ltb, Str.ltb.
  rewrite (String.compare_antisym (Endpoint.method a) (Endpoint.method b)).
  rewrite (String.compare_antisym (Endpoint.url a) (Endpoint.url b)).
  destruct (String.compare (Endpoint.method b) (Endpoint.method a)) eqn:Em;
    simpl; try discriminate.
  apply String.compare_eq_iff in Em.
  destruct (String.compare (Endpoint.url b) (Endpoint.url a)) eqn:Eu;
    simpl; try discriminate.
  apply String.compare_eq_iff in Eu. intros _ _.
  now rewrite Em, Eu, !String.eqb_refl.
Qed.

Lemma insert_perm (x : Endpoint.t) (l : list Endpoint.t) :
  Permutation (insert x l) (x :: l).
Proof.
  induction l as [| y r IH]; simpl; [apply Permutation_refl |].
  destruct (Endpoint.ltb y x); [| apply Permutation_refl].
  eapply perm_trans; [apply perm_skip, IH | apply perm_swap].
Qed.

Lemma sorted_perm (l : list Endpoint.t) : Permutation (sorted l) l.
Proof.
  induction l as [| x r IH]; simpl; [constructor |].
  eapply perm_trans; [apply insert_perm | now apply perm_skip].
Qed.

Lemma insert_filter (e x : Endpoint.t) (l : list Endpoint.t) :
  filter (Endpoint.eqb e) (insert x l) =
  if Endpoint.eqb e x then x :: filter (Endpoint.eqb e) l
  else filter (Endpoint.eqb e) l.
Proof.
  induction l as [| y r IH]; simpl.
  - now destruct (Endpoint.eqb e x).
  - destruct (Endpoint.ltb y x) eqn:Hyx; simpl.
    + rewrite IH. destruct (Endpoint.eqb e x) eqn:Hex; [| reflexivity].
      destruct (Endpoint.eqb e y) eqn:Hey; [| reflexivity].
      rewrite endpoint_eqb_sym in Hey.
      pose proof (endpoint_eqb_trans _ _ _ Hey Hex) as Hyx'.
      apply eqb_not_ltb in Hyx'. congruence.
    + now destruct (Endpoint.eqb e x).
Qed.

Lemma sorted_filter (e : Endpoint.t) (l : list Endpoint.t) :
  filter (Endpoint.eqb e) (sorted l) = filter (Endpoint.eqb e) l.
Proof.
  induction l as [| x r IH]; simpl; [reflexivity |].
  rewrite insert_filter, IH. now destruct (Endpoint.eqb e x).
Qed.

End Order.

(** X7. The order that the record generates is a strict order on
    [(method, url)] that agrees with its equality: no endpoint is below
    itself, the order is transitive, and two endpoints are incomparable
    exactly when they compare equal, whatever their requests and
    responses. *)
Theorem endpoint_order_agrees_with_equality (a b c : Endpoint.t) :
  Endpoint.ltb a a = false
  /\ (Endpoint.ltb a b = true -> Endpoint.ltb b c = true ->
      Endpoint.ltb a c = true)
  /\ (Endpoint.ltb a b = false /\ Endpoint.ltb b a = false
      <-> Endpoint.eqb a b = true).
Proof.
  split; [apply ltb_irrefl |]. split; [apply ltb_trans |]. split.
  - intros [H1 H2]. now apply incomparable_eqb.
  - intros H. split; [now apply eqb_not_ltb |].
    apply eqb_not_ltb. now rewrite endpoint_eqb_sym.
Qed.

(** X8. [sorted] keeps, among endpoints that compare equal, the order
    in which it received them: the endpoints that share method and url
    are listed, and numbered, in the order in which the set yields
    them. *)
Theorem sorted_is_stable (e : Endpoint.t) (l : list Endpoint.t) :
  filter (Endpoint.eqb e) (sorted l) = filter (Endpoint.eqb e) l.
Proof. apply sorted_filter. Qed.

(** ** More on the driver *)

Section Driver.
Variable rt : Builtins.

Lemma write_md_unnamed (base : string) (s : pyset) :
  write_md rt base s EmptyString = ([], Raise IndexError).
Proof. reflexivity. Qed.

Lemma slice_to_strip (d : string) :
  Str.slice_to (d ++ "/") (-1) = d.
Proof.
  unfold Str.slice_to, Str.clip.
  change (-1 <? 0) with true. cbv iota.
  unfold Str.len. rewrite StrFacts.length_append. simpl String.length.
  replace (Z.to_nat (Z.min (Z.max (-1 + Z.of_nat (String.length d + 1)) 0)
                           (Z.of_nat (String.length d + 1))))
    with (String.length d) by lia.
  apply take_append.
Qed.

End Driver.

(** X9. In a run with three arguments whose extraction returns, from a
    set that yields its own elements, every endpoint of the collection
    is listed on standard output exactly once: the listing is a
    rearrangement of the lines of the endpoints. *)
Theorem main_lists_each_endpoint_once (rt : Builtins) (argv : list string)
        (file : string) (s : pyset) :
  List.length argv = 4%nat ->
  open_read rt (nth 1 argv EmptyString) = Ok file ->
  get_endpoints rt file (nth 2 argv EmptyString) = Ok s ->
  Permutation (set_iter rt s) (elements s) ->
  Permutation (stdout (fst (main rt argv))) (map listing (elements s)).
Proof.
  intros Hlen Hopen Hext Hperm.
  rewrite (main_trace rt argv file s Hlen Hopen Hext), stdout_app.
  rewrite (no_print_stdout _ (write_md_no_print rt _ _ s)), app_nil_r.
  change (stdout (Open (nth 1 argv EmptyString) "r"
                  :: map Print (map listing (sorted (set_iter rt s)))))
    with (stdout (map Print (map listing (sorted (set_iter rt s))))).
  rewrite stdout_prints. apply Permutation_map.
  eapply perm_trans; [apply sorted_perm | exact Hperm].
Qed.

(** X10. A run with three arguments, a HAR file that opens, an
    extraction that returns, a set that yields its own elements, a named
    output directory and a file system that fails none of the calls of
    the run completes: [main] returns, the exit status is [0], and the
    index has received one link per endpoint of the collection. *)
Theorem main_completes (rt : Builtins) (argv : list string)
        (file : string) (s : pyset) :
  List.length argv = 4%nat ->
  open_read rt (nth 1 argv EmptyString) = Ok file ->
  get_endpoints rt file (nth 2 argv EmptyString) = Ok s ->
  Permutation (set_iter rt s) (elements s) ->
  nth 3 argv EmptyString <> EmptyString ->
  (forall ev, In ev (fst (main rt argv)) -> fs_result rt ev = Ok tt) ->
  snd (main rt argv) = Ok tt
  /\ exit_status (snd (main rt argv)) = 0
  /\ List.length (appended (index_md (nth 3 argv EmptyString))
                           (fst (main rt argv)))
     = List.length (elements s).
Proof.
  intros Hlen Hopen Hext Hperm Hdir Hfs.
  assert (HL : Forall (fun e => exists d,
                           Request.body (Endpoint.request e) = JObject d)
                      (sorted (set_iter rt s))).
  { pose proof (get_endpoints_bodies rt file _ s Hext) as Hb.
    rewrite Forall_forall in Hb. apply Forall_forall. intros e He.
    apply Hb. apply (Permutation_in _ Hperm). now apply sorted_In. }
  assert (Hok : snd (write_md rt (nth 2 argv EmptyString) s
                              (nth 3 argv EmptyString)) = Ok tt).
  { apply write_md_complete; [exact Hdir | exact HL |].
    intros ev Hev. apply Hfs.
    rewrite (main_trace rt argv file s Hlen Hopen Hext).
    apply in_or_app. now right. }
  rewrite (main_result rt argv file s Hlen Hopen Hext), Hok.
  split; [reflexivity |]. split; [reflexivity |].
  rewrite (main_appended rt argv file _ s Hlen Hopen Hext).
  rewrite (write_md_returns rt _ _ s Hok).
  unfold index_links. rewrite length_map.
  assert (Hlen_enum : forall l i, List.length (enumerate i l) = List.length l).
  { induction l as [| x r IH]; intros i; simpl; [reflexivity |].
    now rewrite IH. }
  rewrite Hlen_enum.
  apply Permutation_length.
  eapply perm_trans; [apply sorted_perm | exact Hperm].
Qed.

(** X11. A run with three arguments whose HAR file does not open ends
    with the exception of [open], having printed and written nothing. *)
Theorem main_unreadable_file (rt : Builtins) (argv : list string)
        (err : exn) :
  List.length argv = 4%nat ->
  open_read rt (nth 1 argv EmptyString) = Raise err ->
  main rt argv = ([Open (nth 1 argv EmptyString) "r"], Raise err).
Proof.
  intros Hlen Hopen. unfold main. rewrite Hlen.
  change (negb (Z.of_nat 4 =? 4)) with false. cbv iota.
  unfold emit, io_lift. rewrite Hopen. reflexivity.
Qed.

(** X12. With the empty string for output directory, [write_md] raises
    [IndexError] before it creates anything; the run has then printed
    its listing and written no file. *)
Theorem main_unnamed_directory (rt : Builtins) (argv : list string)
        (file : string) (s : pyset) :
  List.length argv = 4%nat ->
  open_read rt (nth 1 argv EmptyString) = Ok file ->
  get_endpoints rt file (nth 2 argv EmptyString) = Ok s ->
  nth 3 argv EmptyString = EmptyString ->
  main rt argv =
  (Open (nth 1 argv EmptyString) "r"
   :: map Print (map listing (sorted (set_iter rt s))),
   Raise IndexError).
Proof.
  intros Hlen Hopen Hext Hdir.
  rewrite (surjective_pairing (main rt argv)).
  rewrite (main_trace rt argv file s Hlen Hopen Hext).
  rewrite (main_result rt argv file s Hlen Hopen Hext).
  rewrite Hdir, write_md_unnamed. cbn [fst snd].
  now rewrite app_nil_r.
Qed.

(** X13. One [/] at the end of the output directory is of no account:
    [write_md] does the same with [d/] as with [d], when [d] is named
    and does not itself end in [/]. *)
Theorem write_md_trailing_slash (rt : Builtins) (base d : string)
        (s : pyset) (c : ascii) :
  Str.last d = Ok c ->
  c <> slash ->
  write_md rt base s (d ++ "/") = write_md rt base s d.
Proof.
  intros Hlast Hc. unfold write_md.
  change (d ++ "/")%string with (d ++ String slash EmptyString)%string.
  rewrite (StrFacts.last_append_char slash d), Hlast.
  cbn [io_lift io_bind].
  rewrite Ascii.eqb_refl.
  apply Ascii.eqb_neq in Hc. rewrite Hc.
  now rewrite slice_to_strip.
Qed.

(** ** More on extraction *)

Section ExtractionMore.
Variable rt : Builtins.
Variables (base : string) (start : Z).

Lemma extract_loop_app (l1 l2 : list Har.entry) (s0 : pyset) :
  extract_loop rt base start (l1 ++ l2) s0 =
  (s1 <- extract_loop rt base start l1 s0 ;;
   extract_loop rt base start l2 s1).
Proof.
  revert s0. induction l1 as [| y l1 IH]; intros s0; [reflexivity |].
  rewrite <- app_comm_cons.
  destruct (accepted base y) eqn:Hy.
  - rewrite !extract_loop_accepted by exact Hy.
    destruct (make_endpoint rt start y) as [e |]; simpl; [| reflexivity].
    destruct (set_add rt s0 e) as [s1 |]; simpl; [| reflexivity].
    apply IH.
  - rewrite !extract_loop_skipped by exact Hy. apply IH.
Qed.

(** Entries whose endpoints the set stands for already leave it as it
    is. *)
Lemma extract_loop_absorbed (l : list Har.entry) (s : pyset) :
  (forall x, In x l -> accepted base x = true ->
             exists ex h p, make_endpoint rt start x = Ok ex
                            /\ endpoint_hash rt ex = Ok h
                            /\ In p s /\ same_entry p (h, ex) = true) ->
  extract_loop rt base start l s = Ok s.
Proof.
  induction l as [| y l IH]; intros H; [reflexivity |].
  destruct (accepted base y) eqn:Hy.
  - rewrite extract_loop_accepted by exact Hy.
    destruct (H y (or_introl eq_refl) Hy) as (ex & h & p & Hmk & Hh & Hp & Hs).
    rewrite Hmk. cbn [bind]. unfold set_add. rewrite Hh. cbn [bind].
    assert (E : existsb (fun p => (fst p =? h) && Endpoint.eqb (snd p) ex) s
                = true).
    { apply existsb_exists. exists p. split; [exact Hp | exact Hs]. }
    rewrite E. apply IH. intros x Hx. apply H. now right.
  - rewrite extract_loop_skipped by exact Hy.
    apply IH. intros x Hx. apply H. now right.
Qed.

Lemma extract_loop_rejected (l : list Har.entry) (s : pyset) :
  (forall x, In x l -> accepted base x = false) ->
  extract_loop rt base start l s = Ok s.
Proof.
  intros H. apply extract_loop_absorbed.
  intros x Hx Hacc. rewrite (H x Hx) in Hacc. discriminate.
Qed.

Lemma extract_loop_size (l : list Har.entry) (s0 s : pyset) :
  extract_loop rt base start l s0 = Ok s ->
  (List.length s <= List.length s0
                    + List.length (filter (accepted base) l))%nat.
Proof.
  revert s0. induction l as [| y l IH]; intros s0 Hrun.
  - injection Hrun as <-. simpl. lia.
  - simpl filter. destruct (accepted base y) eqn:Hy.
    + rewrite extract_loop_accepted in Hrun by exact Hy.
      destruct (make_endpoint rt start y) as [e |]; simpl in Hrun;
        [| discriminate].
      destruct (set_add rt s0 e) as [s1 |] eqn:Hadd; simpl in Hrun;
        [| discriminate].
      specialize (IH s1 Hrun).
      destruct (set_add_cases rt _ _ _ Hadd) as (h & _ & [[_ ->] | [_ ->]]).
      * simpl. lia.
      * rewrite length_app in IH. simpl in *. lia.
    + rewrite extract_loop_skipped in Hrun by exact Hy.
      specialize (IH s0 Hrun). lia.
Qed.

(** The parts of the endpoint that [make_endpoint] builds. *)
Lemma make_endpoint_parts (x : Har.entry) (e : Endpoint.t) :
  make_endpoint rt start x = Ok e ->
  Endpoint.method e = Har.req_method (Har.e_request x)
  /\ get_url (Har.e_request x) start = Ok (Endpoint.url e)
  /\ Request.headers (Endpoint.request e)
     = get_headers (Har.req_headers (Har.e_request x))
  /\ Request.params (Endpoint.request e) = get_params (Har.e_request x)
  /\ get_body rt (Har.e_request x) = Ok (Request.body (Endpoint.request e))
  /\ Response.headers (Endpoint.response e)
     = get_headers (Har.res_headers (Har.e_response x))
  /\ get_content rt (Har.e_response x)
     = Ok (Response.content (Endpoint.response e)).
Proof.
  unfold make_endpoint.
  destruct (get_body rt (Har.e_request x)) as [b |]; simpl; [| discriminate].
  destruct (get_content rt (Har.e_response x)) as [c |]; simpl;
    [| discriminate].
  destruct (get_url (Har.e_request x) start) as [u |]; simpl;
    [| discriminate].
  intros [= <-]. simpl. auto 10.
Qed.

(** An accepted entry at which the round fails, whatever the set, stops
    the loop, there or before. *)
Lemma extract_loop_raises_at (entries : list Har.entry) (x : Har.entry)
      (s0 : pyset) :
  In x entries ->
  accepted base x = true ->
  (forall s, exists err,
        (e <- make_endpoint rt start x ;; set_add rt s e) = Raise err) ->
  exists err, extract_loop rt base start entries s0 = Raise err.
Proof.
  intros Hin Hx Hfail. revert s0.
  induction entries as [| y rest IH]; intros s0; [destruct Hin |].
  destruct (accepted base y) eqn:Hy.
  - rewrite extract_loop_accepted by exact Hy.
    destruct Hin as [-> | Hin].
    + destruct (Hfail s0) as [err Herr].
      destruct (make_endpoint rt start x) as [e |]; simpl in *; [| eauto].
      rewrite Herr. simpl. eauto.
    + destruct (make_endpoint rt start y) as [e |]; simpl; [| eauto].
      destruct (set_add rt s0 e) as [s1 |]; simpl; [| eauto].
      now apply IH.
  - rewrite extract_loop_skipped by exact Hy.
    destruct Hin as [-> | Hin]; [congruence | now apply IH].
Qed.

End ExtractionMore.

(** X14. Entries that the log holds already add nothing when they occur
    again: a log followed by entries taken from it gives the collection
    that the log gives. *)
Theorem repeated_entries_add_nothing (rt : Builtins)
        (f1 f2 base : string) (d1 d2 : Har.t) (again : list Har.entry)
        (s : pyset) :
  json_load rt f1 = Ok d1 ->
  json_load rt f2 = Ok d2 ->
  Har.entries (Har.har_log d2)
  = (Har.entries (Har.har_log d1) ++ again)%list ->
  incl again (Har.entries (Har.har_log d1)) ->
  get_endpoints rt f1 base = Ok s ->
  get_endpoints rt f2 base = Ok s.
Proof.
  intros H1 H2 Hd2 Hincl Hrun.
  pose proof (get_endpoints_loop rt f1 base d1 s H1 Hrun) as Hloop.
  unfold get_endpoints. rewrite H2. cbn [bind]. rewrite Hd2.
  rewrite extract_loop_app, Hloop. cbn [bind].
  apply extract_loop_absorbed. intros x Hx Hacc.
  apply (extract_loop_represents rt base _ _ _ _ x (set_inv_nil rt) Hloop);
    [now apply Hincl | exact Hacc].
Qed.

(** X15. On a log whose entries have their request and their response,
    [get_endpoints] returns the empty collection exactly when the filter
    lets no entry pass; and it does return it then: an entry that the
    filter rejects is left before its url, headers, parameters, body or
    content are looked at. *)
Theorem empty_collection_iff (rt : Builtins) (file base : string)
        (data : Har.t) :
  json_load rt file = Ok data ->
  get_endpoints rt file base = Ok []
  <-> (forall x, In x (Har.entries (Har.har_log data)) ->
                 accepted base x = false).
Proof.
  intros Hload. split.
  - intros Hrun x Hx.
    destruct (accepted base x) eqn:Hacc; [exfalso | reflexivity].
    pose proof (get_endpoints_loop rt file base data [] Hload Hrun) as Hloop.
    destruct (extract_loop_represents rt base _ _ _ _ x (set_inv_nil rt)
                Hloop Hx Hacc) as (_ & _ & p & _ & _ & [] & _).
  - intros H. unfold get_endpoints. rewrite Hload. cbn [bind].
    now apply extract_loop_rejected.
Qed.

(** X16. The collection never holds more endpoints than the log holds
    entries that pass the filter. *)
Theorem collection_size_bound (rt : Builtins) (file base : string)
        (data : Har.t) (s : pyset) :
  json_load rt file = Ok data ->
  get_endpoints rt file base = Ok s ->
  (List.length (elements s)
   <= List.length (filter (accepted base)
                          (Har.entries (Har.har_log data))))%nat.
Proof.
  intros Hload Hrun.
  pose proof (get_endpoints_loop rt file base data s Hload Hrun) as Hloop.
  apply extract_loop_size in Hloop. unfold elements.
  rewrite length_map. simpl in Hloop. exact Hloop.
Qed.

(** X17. Every endpoint of the collection is well formed: its method is
    not [OPTIONS], its url holds no [?] and ends in [/], its body is an
    object, and the names of its parameters, of its request headers and
    of its response headers are pairwise distinct. *)
Theorem collection_well_formed (rt : Builtins) (file base : string)
        (s : pyset) (e : Endpoint.t) :
  get_endpoints rt file base = Ok s ->
  In e (elements s) ->
  Endpoint.method e <> "OPTIONS"
  /\ Str.find question (Endpoint.url e) = -1
  /\ Str.last (Endpoint.url e) = Ok slash
  /\ (exists d, Request.body (Endpoint.request e) = JObject d)
  /\ NoDup (keys (Request.params (Endpoint.request e)))
  /\ NoDup (keys (Request.headers (Endpoint.request e)))
  /\ NoDup (keys (Response.headers (Endpoint.response e))).
Proof.
  intros Hrun He.
  pose proof (get_endpoints_bodies rt file base s Hrun) as Hbodies.
  rewrite Forall_forall in Hbodies. specialize (Hbodies e He).
  destruct (json_load rt file) as [data |] eqn:Hload;
    [| unfold get_endpoints in Hrun; rewrite Hload in Hrun; discriminate].
  pose proof (get_endpoints_loop rt file base data s Hload Hrun) as Hloop.
  destruct (extract_loop_origin rt base _ _ _ _ e Hloop He)
    as [[] | (x & _ & Hacc & Hmk)].
  apply accepted_iff in Hacc as [Hm _].
  destruct (make_endpoint_parts rt _ x e Hmk)
    as (Emethod & Eurl & Eh & Ep & _ & Erh & _).
  destruct (get_url_normal _ _ _ Eurl) as [Hq Hl].
  rewrite Emethod, Eh, Ep, Erh.
  repeat split; auto.
  - apply get_params_NoDup.
  - apply get_headers_NoDup.
  - apply get_headers_NoDup.
Qed.

(** X18. A body that decodes to anything but an object cannot be
    hashed: adding the endpoint of such an entry to a set raises
    [AttributeError], and a log that holds such an entry, accepted, makes
    [get_endpoints] raise. *)
Theorem non_object_body_raises (rt : Builtins) (file base : string)
        (data : Har.t) (x : Har.entry) (b : json) :
  json_load rt file = Ok data ->
  In x (Har.entries (Har.har_log data)) ->
  accepted base x = true ->
  get_body rt (Har.e_request x) = Ok b ->
  (forall d, b <> JObject d) ->
  (forall s e, make_endpoint rt (Str.len base) x = Ok e ->
               set_add rt s e = Raise AttributeError)
  /\ exists err, get_endpoints rt file base = Raise err.
Proof.
  intros Hload Hin Hacc Hbody Hb.
  assert (Hadd : forall s e, make_endpoint rt (Str.len base) x = Ok e ->
                             set_add rt s e = Raise AttributeError).
  { intros s e Hmk.
    destruct (make_endpoint_parts rt _ x e Hmk) as (_ & _ & _ & _ & Eb & _).
    assert (Request.body (Endpoint.request e) = b) by congruence.
    unfold set_add, endpoint_hash, Endpoint.hash_args, Endpoint.body_keys.
    rewrite H. destruct b; try reflexivity.
    now contradiction (Hb d). }
  split; [exact Hadd |].
  unfold get_endpoints. rewrite Hload. cbn [bind].
  apply (extract_loop_raises_at rt base _ _ x _ Hin Hacc).
  intros s. destruct (make_endpoint rt (Str.len base) x) as [e | err] eqn:Hmk.
  - exists AttributeError. cbn [bind]. now apply Hadd.
  - exists err. reflexivity.
Qed.

(** X19. What [add] does depends on the structural key and on [(method,
    url)] only. Adding an endpoint with an object for body to a set that
    holds, under its hash, an endpoint with the same structural key
    leaves the set as it is; adding an endpoint that can be hashed to a
    set none of whose endpoints has its [(method, url)] inserts it, at
    the end. *)
Theorem set_add_by_key (rt : Builtins) (s : pyset) (e : Endpoint.t) :
  (forall h z d,
      In (h, z) s -> endpoint_hash rt z = Ok h ->
      Request.body (Endpoint.request e) = JObject d ->
      structural_key z = structural_key e ->
      set_add rt s e = Ok s)
  /\ (forall h,
         endpoint_hash rt e = Ok h ->
         (forall p, In p s -> Endpoint.eqb (snd p) e = false) ->
         set_add rt s e = Ok (s ++ [(h, e)])%list).
Proof.
  split.
  - intros h z d Hz Hhz Hbody Hkey.
    assert (He : exists h', endpoint_hash rt e = Ok h').
    { unfold endpoint_hash, Endpoint.hash_args, Endpoint.body_keys.
      rewrite Hbody. simpl. eauto. }
    destruct He as [h' He].
    pose proof (same_key_same_entry rt z e h h' Hhz He Hkey) as Hsame.
    unfold set_add. rewrite He. cbn [bind].
    assert (E : existsb (fun p => (fst p =? h') && Endpoint.eqb (snd p) e) s
                = true).
    { apply existsb_exists. exists (h, z). split; [exact Hz | exact Hsame]. }
    now rewrite E.
  - intros h He Hnew. unfold set_add. rewrite He. cbn [bind].
    assert (E : existsb (fun p => (fst p =? h) && Endpoint.eqb (snd p) e) s
                = false).
    { apply not_true_is_false. intros E.
      apply existsb_exists in E as (p & Hp & Hs).
      apply andb_true_iff in Hs as [_ Hs].
      rewrite (Hnew p Hp) in Hs. discriminate. }
    now rewrite E.
Qed.

(** X20. No request that passes the filter goes undocumented: when
    [get_endpoints] returns, the collection holds, for every accepted
    entry, an endpoint with the method of the entry and with its
    normalised URL. *)
Theorem no_request_lost (rt : Builtins) (file base : string)
        (data : Har.t) (s : pyset) (x : Har.entry) :
  json_load rt file = Ok data ->
  get_endpoints rt file base = Ok s ->
  In x (Har.entries (Har.har_log data)) ->
  accepted base x = true ->
  exists z,
    In z (elements s)
    /\ Endpoint.method z = Har.req_method (Har.e_request x)
    /\ get_url (Har.e_request x) (Str.len base) = Ok (Endpoint.url z).
Proof.
  intros Hload Hrun Hin Hacc.
  pose proof (get_endpoints_loop rt file base data s Hload Hrun) as Hloop.
  destruct (extract_loop_represents rt base _ _ _ _ x (set_inv_nil rt)
              Hloop Hin Hacc) as (ex & h & [hz z] & Hmk & _ & Hp & Hsame).
  destruct (make_endpoint_parts rt _ x ex Hmk) as (Em & Eu & _).
  unfold same_entry, Endpoint.eqb in Hsame. simpl in Hsame.
  rewrite !andb_true_iff, !String.eqb_eq in Hsame.
  destruct Hsame as (_ & Hm & Hu).
  exists z. split; [| split].
  - apply in_map_iff. now exists (hz, z).
  - congruence.
  - congruence.
Qed.

(** ** More on rendering *)

Section RenderMore.
Variable rt : Builtins.

Lemma for_each_emit (A : Type) (xs : list A) (ev : A -> event) :
  for_each xs (fun x => emit (ev x)) = (map ev xs, Ok tt).
Proof.
  induction xs as [| x r IH]; simpl for_each; [reflexivity |].
  rewrite IH. reflexivity.
Qed.

End RenderMore.

(** X21. [write_table] completes, and writes the two lines of the
    heading, then one row per item of the mapping, in the order of the
    mapping, then an empty line. *)
Theorem write_table_rows (V : Type) (fmt : V -> string) (f : file)
        (d : dict V) (key_name value_name : string) :
  write_table fmt f d key_name value_name =
  ((Write f (key_name ++ " | " ++ value_name ++ nl)
    :: Write f (":----- | :----" ++ nl)
    :: map (table_row fmt f) d ++ [Write f nl])%list,
   Ok tt).
Proof.
  unfold write_table.
  change (fun kv : string * V =>
            emit (Write f ("`" ++ fst kv ++ "` | <code>" ++ fmt (snd kv)
                           ++ "</code>" ++ nl)))
    with (fun kv => emit (table_row fmt f kv)).
  rewrite for_each_emit. reflexivity.
Qed.

(** X22. For a method other than [POST], [write_request] completes and
    takes no notice of the body: it writes the same with any other body
    in its place. *)
Theorem write_request_skips_body (rt : Builtins) (f : file)
        (e : Endpoint.t) (b : json) :
  Endpoint.method e <> "POST" ->
  snd (write_request rt f e) = Ok tt
  /\ write_request rt f (with_body e b) = write_request rt f e.
Proof.
  intros Hm. apply String.eqb_neq in Hm. split.
  - unfold write_request.
    repeat (rewrite io_bind_snd; cbn [snd emit]; rewrite ?write_table_ok).
    match goal with
    | |- context [if ?c then _ else _] =>
        destruct c; rewrite ?write_table_ok, ?write_none_ok
    end; now rewrite Hm.
  - unfold write_request, with_body. cbn [Endpoint.method Endpoint.request
      Request.headers Request.params Request.body].
    now rewrite Hm.
Qed.

(** ** Links and pages *)

Lemma string_append_assoc (a b c : string) :
  ((a ++ b) ++ c = a ++ b ++ c)%string.
Proof. induction a as [| x a IH]; simpl; [reflexivity | now rewrite IH]. Qed.

(** X23. When the URL of a request goes on with [/] after the base URL,
    the normalised URL begins with [/]. *)
Theorem get_url_leading_slash (req : Har.request) (base r u : string) :
  Har.req_url req = (base ++ String slash r)%string ->
  get_url req (Str.len base) = Ok u ->
  exists u', u = String slash u'.
Proof.
  intros Hurl. unfold get_url. rewrite Hurl, StrFacts.slice_from_append.
  set (rest := String slash r).
  set (path := if negb (Str.find question rest =? -1)
               then Str.slice_to rest (Str.find question rest) else rest).
  assert (Hpath : exists p, path = String slash p).
  { unfold path.
    destruct (Z.eqb_spec (Str.find question rest) (-1)) as [E | NE];
      cbn [negb].
    - now exists r.
    - pose proof (StrFacts.find_bounds question rest NE) as Hb.
      unfold Str.slice_to. rewrite StrFacts.clip_inside by lia.
      destruct (Z.to_nat (Str.find question rest)) as [| n] eqn:En.
      + assert (H0 : Str.find question rest = 0) by lia.
        apply find_zero in H0 as [q Hq]. discriminate.
      + exists (Str.take n r). reflexivity. }
  destruct Hpath as [p ->].
  destruct (Str.last (String slash p)) as [c |]; simpl; [| discriminate].
  destruct (negb (Ascii.eqb c slash)); intros [= <-].
  - exists (p ++ "/")%string. reflexivity.
  - exists p. reflexivity.
Qed.

(** X24. The index and the pages agree. For an endpoint whose url
    begins with [/], the link that [write_md] appends to the index
    targets the stem of the page with the extension [html]; and, when
    the file system lets the directory of the endpoint be made and the
    index be opened, the page that the round opens for writing is that
    stem with the extension [md], under the output directory. *)
Theorem link_points_to_page (rt : Builtins) (out_dir : string) (i : Z)
        (e : Endpoint.t) (rest : list Endpoint.t) (u : string) :
  Endpoint.url e = String slash u ->
  index_link e (i + 1)
  = ("- [`" ++ Endpoint.method e ++ " " ++ Endpoint.url e ++ "`]("
     ++ page_stem e (i + 1) ++ ".html)" ++ nl)%string
  /\ (fs_result rt (MakeDirs (out_dir ++ Endpoint.url e)) = Ok tt ->
      fs_result rt (Open (out_dir ++ "/index.md") "a") = Ok tt ->
      In (Open (out_dir ++ "/" ++ page_stem e (i + 1) ++ ".md") "w")
         (fst (write_pages rt out_dir i (e :: rest)))).
Proof.
  intros Hu. split.
  - unfold index_link, page_stem.
    now rewrite !string_append_assoc.
  - intros H1 H2.
    destruct (write_pages_attempts rt out_dir i e rest) as (_ & _ & Hpage).
    specialize (Hpage H1 H2).
    assert (E : (out_dir ++ "/" ++ page_stem e (i + 1) ++ ".md")%string
                = page_path out_dir e (i + 1)).
    { unfold page_stem, page_path. rewrite Hu, !string_append_assoc.
      assert (Hs : Str.slice_from (String slash u) 1 = u).
      { unfold Str.slice_from. rewrite StrFacts.clip_inside.
        - reflexivity.
        - unfold Str.len. simpl String.length. lia. }
      rewrite Hs. reflexivity. }
    rewrite E. exact Hpage.
Qed.

(** ** The further properties on a concrete run *)

Lemma get_headers_last_wins_witness :
  dict_get (get_headers Demo.repeated_headers) "Accept"
  = Some "application/json"
  /\ dict_get (get_headers Demo.repeated_headers) "Cookie" = None.
Proof.
  destruct (get_headers_last_wins Demo.repeated_headers) as [Hlast Hnone].
  split.
  - apply (Hlast [ {| Har.name := "Accept"; Har.value := "text/html" |};
                   Demo.agent "one" ]
                 {| Har.name := "Accept"; Har.value := "application/json" |}
                 []).
    + reflexivity.
    + intros h' [].
  - apply Hnone. intros h [<- | [<- | [<- | []]]]; discriminate.
Defined.

Lemma get_params_names_witness :
  NoDup (keys (get_params Demo.flagged))
  /\ keys (get_params Demo.flagged) = ["q"; "flag"].
Proof.
  apply (get_params_names Demo.flagged). vm_compute. discriminate.
Defined.

Lemma get_url_ignores_query_witness :
  get_url (Har.e_request Demo.users_ab) (Str.len Demo.base)
  = get_url Demo.users_plain (Str.len Demo.base).
Proof.
  apply (get_url_ignores_query Demo.users_plain
           (Har.e_request Demo.users_ab) "a=1&b=2").
  - reflexivity.
  - reflexivity.
  - vm_compute. split; discriminate.
Defined.

Lemma get_url_raises_iff_witness :
  get_url (Har.e_request Demo.bare_base) (Str.len Demo.base)
  = Raise IndexError.
Proof.
  apply (proj1 (get_url_raises_iff (Har.e_request Demo.bare_base)
                  (Str.len Demo.base))).
  right. exists "page=2". reflexivity.
Defined.

Lemma endpoint_order_agrees_with_equality_witness :
  Endpoint.ltb Demo.endpoint_ab Demo.endpoint_ba = false
  /\ Endpoint.ltb Demo.endpoint_ba Demo.endpoint_ab = false.
Proof.
  apply (proj2 (proj2 (endpoint_order_agrees_with_equality
                         Demo.endpoint_ab Demo.endpoint_ba
                         Demo.endpoint_ab))).
  reflexivity.
Defined.

Lemma main_lists_each_endpoint_once_witness :
  Permutation (stdout (fst (main (Demo.builtins Demo.capture) Demo.argv)))
              (map listing (elements Demo.capture_endpoints)).
Proof.
  apply (main_lists_each_endpoint_once (Demo.builtins Demo.capture)
           Demo.argv "capture.har" Demo.capture_endpoints).
  - reflexivity.
  - reflexivity.
  - vm_compute. reflexivity.
  - apply Permutation_refl.
Defined.

Lemma main_completes_witness :
  snd (main (Demo.builtins Demo.capture) Demo.argv) = Ok tt
  /\ exit_status (snd (main (Demo.builtins Demo.capture) Demo.argv)) = 0
  /\ List.length (appended (index_md "out")
                           (fst (main (Demo.builtins Demo.capture)
                                      Demo.argv)))
     = List.length (elements Demo.capture_endpoints).
Proof.
  apply (main_completes (Demo.builtins Demo.capture) Demo.argv
           "capture.har" Demo.capture_endpoints).
  - reflexivity.
  - reflexivity.
  - vm_compute. reflexivity.
  - apply Permutation_refl.
  - discriminate.
  - intros ev Hev.
    assert (Hall : forallb (fun ev =>
                              match fs_result (Demo.builtins Demo.capture) ev
                              with
                              | Ok _ => true
                              | Raise _ => false
                              end)
                           (fst (main (Demo.builtins Demo.capture)
                                      Demo.argv)) = true)
      by (vm_compute; reflexivity).
    rewrite forallb_forall in Hall. specialize (Hall ev Hev).
    destruct (fs_result (Demo.builtins Demo.capture) ev) as [[] |];
      [reflexivity | discriminate].
Defined.

Lemma main_unreadable_file_witness :
  main Demo.no_file Demo.argv
  = ([Open "capture.har" "r"], Raise OSError).
Proof.
  apply (main_unreadable_file Demo.no_file Demo.argv OSError); reflexivity.
Defined.

Lemma main_unnamed_directory_witness :
  main (Demo.builtins Demo.capture) Demo.argv_unnamed
  = (Open "capture.har" "r"
     :: map Print (map listing (sorted (elements Demo.capture_endpoints))),
     Raise IndexError).
Proof.
  apply (main_unnamed_directory (Demo.builtins Demo.capture)
           Demo.argv_unnamed "capture.har" Demo.capture_endpoints).
  - reflexivity.
  - reflexivity.
  - vm_compute. reflexivity.
  - reflexivity.
Defined.

Lemma write_md_trailing_slash_witness :
  write_md (Demo.builtins Demo.capture) Demo.base Demo.capture_endpoints
           "out/"
  = write_md (Demo.builtins Demo.capture) Demo.base Demo.capture_endpoints
             "out".
Proof.
  apply (write_md_trailing_slash (Demo.builtins Demo.capture) Demo.base
           "out" Demo.capture_endpoints "t"%char).
  - reflexivity.
  - discriminate.
Defined.

Lemma repeated_entries_add_nothing_witness :
  get_endpoints Demo.two_files "again.har" Demo.base
  = Ok Demo.capture_endpoints.
Proof.
  apply (repeated_entries_add_nothing Demo.two_files "capture.har"
           "again.har" Demo.base Demo.capture Demo.capture_again
           [Demo.users_ba; Demo.users_ab]).
  - reflexivity.
  - reflexivity.
  - reflexivity.
  - intros x [<- | [<- | []]]; simpl; tauto.
  - vm_compute. reflexivity.
Defined.

Lemma empty_collection_iff_witness :
  get_endpoints (Demo.builtins Demo.noise) "capture.har" Demo.base = Ok [].
Proof.
  apply (proj2 (empty_collection_iff (Demo.builtins Demo.noise)
                  "capture.har" Demo.base Demo.noise eq_refl)).
  intros x [<- | [<- | []]]; reflexivity.
Defined.

Lemma collection_size_bound_witness :
  (List.length (elements Demo.capture_endpoints)
   <= List.length (filter (accepted Demo.base)
                          (Har.entries (Har.har_log Demo.capture))))%nat.
Proof.
  apply (collection_size_bound (Demo.builtins Demo.capture) "capture.har"
           Demo.base Demo.capture Demo.capture_endpoints).
  - reflexivity.
  - vm_compute. reflexivity.
Defined.

Lemma collection_well_formed_witness :
  Endpoint.method Demo.endpoint_ab <> "OPTIONS"
  /\ Str.find question (Endpoint.url Demo.endpoint_ab) = -1
  /\ Str.last (Endpoint.url Demo.endpoint_ab) = Ok slash
  /\ (exists d, Request.body (Endpoint.request Demo.endpoint_ab) = JObject d)
  /\ NoDup (keys (Request.params (Endpoint.request Demo.endpoint_ab)))
  /\ NoDup (keys (Request.headers (Endpoint.request Demo.endpoint_ab)))
  /\ NoDup (keys (Response.headers (Endpoint.response Demo.endpoint_ab))).
Proof.
  apply (collection_well_formed (Demo.builtins Demo.capture) "capture.har"
           Demo.base Demo.capture_endpoints Demo.endpoint_ab).
  - vm_compute. reflexivity.
  - vm_compute. left. reflexivity.
Defined.

Lemma non_object_body_raises_witness :
  exists err,
    get_endpoints (Demo.builtins Demo.array_capture) "capture.har" Demo.base
    = Raise err.
Proof.
  apply (non_object_body_raises (Demo.builtins Demo.array_capture)
           "capture.har" Demo.base Demo.array_capture Demo.array_body
           (JArray [])).
  - reflexivity.
  - simpl. right. left. reflexivity.
  - reflexivity.
  - reflexivity.
  - discriminate.
Defined.

Lemma set_add_by_key_witness :
  set_add (Demo.builtins Demo.capture) Demo.capture_endpoints
          Demo.endpoint_ab'
  = Ok Demo.capture_endpoints.
Proof.
  apply (proj1 (set_add_by_key (Demo.builtins Demo.capture)
                  Demo.capture_endpoints Demo.endpoint_ab')
               (Demo.poly_hash ["GET"; "/users/"; "a"; "b"])
               Demo.endpoint_ab []).
  - vm_compute. left. reflexivity.
  - reflexivity.
  - reflexivity.
  - reflexivity.
Defined.

Lemma no_request_lost_witness :
  exists z,
    In z (elements Demo.capture_endpoints)
    /\ Endpoint.method z = "GET"
    /\ get_url (Har.e_request Demo.users_ab') (Str.len Demo.base)
       = Ok (Endpoint.url z).
Proof.
  apply (no_request_lost (Demo.builtins Demo.capture) "capture.har"
           Demo.base Demo.capture Demo.capture_endpoints Demo.users_ab').
  - reflexivity.
  - vm_compute. reflexivity.
  - simpl. do 4 right. left. reflexivity.
  - reflexivity.
Defined.

Lemma write_request_skips_body_witness :
  snd (write_request (Demo.builtins Demo.capture)
                     {| path := "out/users/GET_1.md"; mode := "w" |}
                     Demo.endpoint_ab) = Ok tt
  /\ write_request (Demo.builtins Demo.capture)
                   {| path := "out/users/GET_1.md"; mode := "w" |}
                   (with_body Demo.endpoint_ab JNull)
     = write_request (Demo.builtins Demo.capture)
                     {| path := "out/users/GET_1.md"; mode := "w" |}
                     Demo.endpoint_ab.
Proof.
  apply (write_request_skips_body (Demo.builtins Demo.capture)).
  discriminate.
Defined.

Lemma get_url_leading_slash_witness :
  exists u', "/users/" = String slash u'.
Proof.
  apply (get_url_leading_slash (Har.e_request Demo.users_ab) Demo.base
           "users?a=1&b=2" "/users/"); reflexivity.
Defined.

Lemma link_points_to_page_witness :
  In (Open "out/users/GET_1.md" "w")
     (fst (write_pages (Demo.builtins Demo.capture) "out" 0
                       [Demo.endpoint_ab])).
Proof.
  apply (proj2 (link_points_to_page (Demo.builtins Demo.capture) "out" 0
                  Demo.endpoint_ab [] "users/" eq_refl));
    reflexivity.
Defined.

(** ** Identity by a flat tuple *)

Section FlatTuple.
Variable rt : Builtins.

(** The tuple that is hashed, for an endpoint whose body is an
    object. *)
Lemma endpoint_hash_object (e : Endpoint.t) (d : dict json) :
  Request.body (Endpoint.request e) = JObject d ->
  endpoint_hash rt e
  = Ok (hash rt (Endpoint.method e :: Endpoint.url e
                 :: keys (Request.params (Endpoint.request e))
                 ++ keys d)%list).
Proof.
  intros Hb. unfold endpoint_hash, Endpoint.hash_args, Endpoint.body_keys.
  now rewrite Hb.
Qed.

Lemma split_position (A : Type) (l1 l1' l2 l2' : list A) (x x' : A) :
  (l1 ++ x :: l2 = l1' ++ x' :: l2')%list ->
  (l1 = l1' /\ x = x') \/ In x' l1 \/ In x l1'.
Proof.
  revert l1'. induction l1 as [| a l1 IH]; intros [| a' l1']; simpl;
    intros E.
  - injection E as -> _. auto.
  - injection E as -> _. right. right. now left.
  - injection E as -> _. right. left. now left.
  - injection E as -> E.
    destruct (IH l1' E) as [[-> ->] | [H | H]]; auto.
Qed.

End FlatTuple.

(** C2, on a log where the code departs from it. A request with the
    parameter [a] and no body is followed by two requests to the same
    path with no parameter and the one body field [a]. The two pass the
    filter and share a structural key, and the collection that
    [get_endpoints] returns holds the endpoint of the first request
    alone: no endpoint with the key of the two is retained, whatever the
    hash function. *)
Theorem same_key_entries_dropped (rt : Builtins) (file : string) :
  json_load rt file = Ok Demo.flat_capture ->
  json_loads rt (Demo.one_field "a") = Some (JObject [("a", JInt 1)]) ->
  make_endpoint rt (Str.len Demo.base) (Demo.post_body "one")
  = Ok (Demo.endpoint_post_body "one")
  /\ make_endpoint rt (Str.len Demo.base) (Demo.post_body "two")
     = Ok (Demo.endpoint_post_body "two")
  /\ structural_key (Demo.endpoint_post_body "one")
     = structural_key (Demo.endpoint_post_body "two")
  /\ exists s,
      get_endpoints rt file Demo.base = Ok s
      /\ elements s = [Demo.endpoint_post_query]
      /\ forall z, In z (elements s) ->
                   structural_key z
                   <> structural_key (Demo.endpoint_post_body "one").
Proof.
  intros Hload Hloads.
  assert (Hmk : forall v, make_endpoint rt (Str.len Demo.base)
                                        (Demo.post_body v)
                          = Ok (Demo.endpoint_post_body v)).
  { intros v. unfold make_endpoint, get_body, loads.
    cbn [Demo.post_body Demo.entry Har.e_request Har.e_response
         Har.req_postData Har.pd_text].
    rewrite Hloads. reflexivity. }
  split; [apply Hmk |]. split; [apply Hmk |]. split; [reflexivity |].
  unfold get_endpoints. rewrite Hload.
  cbn [bind Har.entries Har.har_log Demo.flat_capture Demo.har].
  rewrite extract_loop_accepted by reflexivity.
  change (make_endpoint rt (Str.len Demo.base) Demo.post_query)
    with (Ok Demo.endpoint_post_query).
  cbn [bind]. unfold set_add at 1.
  change (endpoint_hash rt Demo.endpoint_post_query)
    with (Ok (hash rt ["POST"; "/users/"; "a"])).
  cbn [bind existsb app].
  rewrite extract_loop_accepted by reflexivity.
  rewrite Hmk. cbn [bind]. unfold set_add at 1.
  change (endpoint_hash rt (Demo.endpoint_post_body "one"))
    with (Ok (hash rt ["POST"; "/users/"; "a"])).
  cbn [bind existsb fst snd orb].
  change (Endpoint.eqb Demo.endpoint_post_query
                       (Demo.endpoint_post_body "one")) with true.
  rewrite Z.eqb_refl. cbn [andb orb bind].
  rewrite extract_loop_accepted by reflexivity.
  rewrite Hmk. cbn [bind]. unfold set_add at 1.
  change (endpoint_hash rt (Demo.endpoint_post_body "two"))
    with (Ok (hash rt ["POST"; "/users/"; "a"])).
  cbn [bind existsb fst snd orb].
  change (Endpoint.eqb Demo.endpoint_post_query
                       (Demo.endpoint_post_body "two")) with true.
  rewrite Z.eqb_refl. cbn [andb orb bind extract_loop].
  eexists. split; [reflexivity |]. split; [reflexivity |].
  intros z [<- | []]. discriminate.
Qed.

(** X26. When the set keeps the structural keys of the log apart, the
    first accepted entry of each structural key has its endpoint, with
    its own values, in the collection that [get_endpoints] returns. *)
Theorem first_of_key_retained (rt : Builtins) (file base : string)
        (data : Har.t) (s : pyset) (l1 l2 : list Har.entry)
        (x : Har.entry) (ex : Endpoint.t) :
  json_load rt file = Ok data ->
  get_endpoints rt file base = Ok s ->
  keys_kept_apart rt base (Har.entries (Har.har_log data)) ->
  Har.entries (Har.har_log data) = (l1 ++ x :: l2)%list ->
  accepted base x = true ->
  make_endpoint rt (Str.len base) x = Ok ex ->
  (forall y ey, In y l1 -> accepted base y = true ->
                make_endpoint rt (Str.len base) y = Ok ey ->
                structural_key ey <> structural_key ex) ->
  In ex (elements s).
Proof.
  intros Hload Hrun Hapart Hsplit Hax Hex Hfirst.
  pose proof (get_endpoints_loop rt file base data s Hload Hrun) as Hloop.
  assert (Hx : In x (Har.entries (Har.har_log data))).
  { rewrite Hsplit. apply in_or_app. right. now left. }
  destruct (one_stands_for rt file base data s Hload Hrun x ex Hx Hax Hex)
    as (h & hz & z & Hh & Hz & Hsame & _).
  destruct (extract_loop_first rt base _ _ _ _ (hz, z) Hloop Hz)
    as [[] | (l1' & x' & l2' & Hsplit' & Hax' & Hmk' & _ & Hearlier)].
  simpl in Hmk'.
  assert (Hx' : In x' (Har.entries (Har.har_log data))).
  { rewrite Hsplit'. apply in_or_app. right. now left. }
  assert (Hkz : structural_key z = structural_key ex).
  { apply (Hapart x' x z ex Hx' Hx Hax' Hax Hmk' Hex).
    now apply (stands_for_same_entry rt file base data s Hload Hrun hz h). }
  rewrite Hsplit in Hsplit'.
  destruct (split_position _ _ _ _ _ _ _ Hsplit')
    as [[_ ->] | [Hin | Hin]].
  - assert (z = ex) by congruence. subst z.
    apply (elements_In s). eauto.
  - exfalso. apply (Hfirst x' z Hin Hax' Hmk' Hkz).
  - exfalso. specialize (Hearlier x ex h Hin Hax Hex Hh).
    rewrite same_entry_sym in Hearlier. congruence.
Qed.

(** X27. The hash does not tell where the parameter names end and the
    body field names begin. Two endpoints with objects for bodies, one
    method and one url, whose parameter names followed by body field
    names read alike, are one element for a set: adding the second to a
    set that holds the first under its hash leaves the set as it is. *)
Theorem flat_tuple_identifies (rt : Builtins) (s : pyset) (h : Z)
        (e1 e2 : Endpoint.t) (d1 d2 : dict json) :
  Request.body (Endpoint.request e1) = JObject d1 ->
  Request.body (Endpoint.request e2) = JObject d2 ->
  Endpoint.method e1 = Endpoint.method e2 ->
  Endpoint.url e1 = Endpoint.url e2 ->
  (keys (Request.params (Endpoint.request e1)) ++ keys d1
   = keys (Request.params (Endpoint.request e2)) ++ keys d2)%list ->
  endpoint_hash rt e1 = Ok h ->
  In (h, e1) s ->
  set_add rt s e2 = Ok s.
Proof.
  intros Hb1 Hb2 Hm Hu Hnames Hh1 Hin.
  rewrite (endpoint_hash_object rt e1 d1 Hb1) in Hh1.
  injection Hh1 as Hh1.
  unfold set_add. rewrite (endpoint_hash_object rt e2 d2 Hb2). cbn [bind].
  rewrite <- Hm, <- Hu, <- Hnames, Hh1.
  assert (E : existsb (fun p => (fst p =? h) && Endpoint.eqb (snd p) e2) s
              = true).
  { apply existsb_exists. exists (h, e1). split; [exact Hin |].
    cbn [fst snd]. rewrite Z.eqb_refl. unfold Endpoint.eqb.
    now rewrite Hm, Hu, !String.eqb_refl. }
  now rewrite E.
Qed.

Lemma same_key_entries_dropped_witness :
  exists s,
    get_endpoints (Demo.builtins Demo.flat_capture) "capture.har" Demo.base
    = Ok s
    /\ elements s = [Demo.endpoint_post_query]
    /\ forall z, In z (elements s) ->
                 structural_key z
                 <> structural_key (Demo.endpoint_post_body "one").
Proof.
  apply (same_key_entries_dropped (Demo.builtins Demo.flat_capture)
           "capture.har"); reflexivity.
Defined.

Lemma first_of_key_retained_witness :
  In Demo.endpoint_ba (elements Demo.capture_endpoints).
Proof.
  apply (first_of_key_retained (Demo.builtins Demo.capture) "capture.har"
           Demo.base Demo.capture Demo.capture_endpoints
           [Demo.preflight; Demo.users_ab; Demo.elsewhere]
           [Demo.users_ab'; Demo.items] Demo.users_ba Demo.endpoint_ba).
  - reflexivity.
  - vm_compute. reflexivity.
  - intros x y ex ey Hx Hy Hax Hay Hex Hey (h & Hhx & Hhy & Heq).
    simpl in Hx, Hy.
    destruct Hx as [<- | [<- | [<- | [<- | [<- | [<- | []]]]]]];
    destruct Hy as [<- | [<- | [<- | [<- | [<- | [<- | []]]]]]];
    vm_compute in Hax; vm_compute in Hay;
    try discriminate Hax; try discriminate Hay;
    vm_compute in Hex; vm_compute in Hey;
    injection Hex as <-; injection Hey as <-;
    try reflexivity;
    vm_compute in Hhx; vm_compute in Hhy; vm_compute in Heq;
    congruence.
  - reflexivity.
  - reflexivity.
  - reflexivity.
  - intros y ey [<- | [<- | [<- | []]]] Hay Hey;
      vm_compute in Hay; try discriminate Hay;
      vm_compute in Hey; injection Hey as <-; discriminate.
Defined.

Lemma flat_tuple_identifies_witness :
  set_add (Demo.builtins Demo.flat_capture)
          [(Demo.poly_hash ["POST"; "/users/"; "a"],
            Demo.endpoint_post_query)]
          (Demo.endpoint_post_body "one")
  = Ok [(Demo.poly_hash ["POST"; "/users/"; "a"], Demo.endpoint_post_query)].
Proof.
  apply (flat_tuple_identifies (Demo.builtins Demo.flat_capture) _
           (Demo.poly_hash ["POST"; "/users/"; "a"])
           Demo.endpoint_post_query (Demo.endpoint_post_body "one")
           [] [("a", JInt 1)]).
  - reflexivity.
  - reflexivity.
  - reflexivity.
  - reflexivity.
  - reflexivity.
  - reflexivity.
  - left. reflexivity.
Defined.
